(** * Matisse controller: lock supervision, instrument queries, GUI slots

    A shallow embedding of three source files of the Matisse laser
    controller,

      - [matisse/matisse.py]                ([Matisse.query]),
      - [matisse/lock_correction_thread.py] ([LockCorrectionThread.run]),
      - [gui/control_application.py]        (the wavelength dialog and the
                                             control-loop toggles),

    together with the properties the design document states about them.

    Conventions.  Strings are ASCII strings, as the instrument protocol is.
    Python exceptions are values of [exn]; a call that can raise returns a
    [res].  The wavelengths of the GUI are binary64 floats, as Python has
    them, with the arithmetic of [PrimFloat]; spans of time are
    rationals.  What the program asks
    of the outside world (the instrument, the message queue's other
    writers, the user) is read from an oracle record, and every effect the
    program has on it is appended to a trace of events. *)

From Stdlib Require Import Floats.
From Stdlib Require Import List String Ascii Bool Arith Lia ZArith QArith Qabs Qround Lqa.
Import ListNotations.

Local Close Scope Q_scope.
Local Open Scope string_scope.
Local Open Scope list_scope.
Local Open Scope nat_scope.

(** ** Python exceptions and fallible calls *)

Inductive exn : Type :=
| RuntimeError (msg : string)
| VisaIOError
| RecursionError
| IndexError
| ValueError
| TypeError
| NotImplementedError
| OtherError (name : string).

Inductive res (A : Type) : Type :=
| Ok (a : A)
| Raise (e : exn).

Arguments Ok {A} a.
Arguments Raise {A} e.

(** ** The part of Python's [str] the program uses *)

Module PyStr.

(** [c.isspace()] on an ASCII character: tab, line feed, vertical tab,
    form feed, carriage return, the four separators 0x1c-0x1f, space. *)
Definition isspace (c : ascii) : bool :=
  let n := nat_of_ascii c in
  ((9 <=? n) && (n <=? 13)) || ((28 <=? n) && (n <=? 32)).

Fixpoint lstrip (s : string) : string :=
  match s with
  | EmptyString => EmptyString
  | String c s' => if isspace c then lstrip s' else s
  end.

Fixpoint rstrip (s : string) : string :=
  match s with
  | EmptyString => EmptyString
  | String c s' =>
      match rstrip s' with
      | EmptyString => if isspace c then EmptyString else String c EmptyString
      | r => String c r
      end
  end.

(** [s.strip()] *)
Definition strip (s : string) : string := rstrip (lstrip s).

(** [s.startswith(p)] *)
Fixpoint startswith (p s : string) : bool :=
  match p, s with
  | EmptyString, _ => true
  | String a p', String b s' => Ascii.eqb a b && startswith p' s'
  | String _ _, EmptyString => false
  end.

(** [s.split()]: the maximal runs of non-space characters.  [cur] is the
    run being read, most recent character first. *)
Definition flush (cur : list ascii) (acc : list string) : list string :=
  match cur with
  | [] => acc
  | _ => string_of_list_ascii (rev cur) :: acc
  end.

Fixpoint split_aux (s : string) (cur : list ascii) : list string :=
  match s with
  | EmptyString => flush cur []
  | String c s' =>
      if isspace c then flush cur (split_aux s' [])
      else split_aux s' (c :: cur)
  end.

Definition split (s : string) : list string := split_aux s [].

(** No character of [s] is a space. *)
Fixpoint nospace (s : string) : bool :=
  match s with
  | EmptyString => true
  | String c s' => negb (isspace c) && nospace s'
  end.

End PyStr.

(** ** [matisse/matisse.py]: the instrument link *)

Module Matisse.

(** What [self.instrument.query(command)] gives back: the raw response
    string, or a [VisaIOError] raised by the VISA layer. *)
Inductive reply : Type :=
| Reply (raw : string)
| LinkError.

(** The instrument, as the program sees it: its answer to a command may
    depend on every command sent to it before (oldest first). *)
Definition instrument : Type := list string -> string -> reply.

(** What a call of [query] does, in order: exchanges with the instrument,
    and evaluations of [float(result.split()[1])] on a response. *)
Inductive op : Type :=
| Exchange (command : string)
| ParseNumeric (result : string).

Definition sent (tr : list op) : list string :=
  flat_map (fun o => match o with Exchange c => [c] | ParseNumeric _ => [] end) tr.

Definition is_exchange (o : op) : bool :=
  match o with Exchange _ => true | ParseNumeric _ => false end.

Definition ERROR_SENTINEL : string := "!ERROR".
Definition ERROR_CODE_QUERY : string := "ERROR:CODE?".

(** The message of the [RuntimeError] that [query] raises. *)
Definition error_message (command code : string) : string :=
  "Error executing Matisse command '" ++ command ++ "' " ++ code.

Section Query.

(** Python's floats and [float(s)] on a string; [None] is the
    [ValueError] of a string that is no float literal. *)
Variable F : Type.
Variable py_float : string -> option F.

Variable dev : instrument.

(** [query] returns a [str], or a [float] when a numeric result was
    asked for. *)
Inductive value : Type :=
| VStr (s : string)
| VFloat (x : F).

(** [float(result.split()[1])] *)
Definition parse_numeric (result : string) : res value :=
  match nth_error (PyStr.split result) 1 with
  | None => Raise IndexError
  | Some token =>
      match py_float token with
      | None => Raise ValueError
      | Some x => Ok (VFloat x)
      end
  end.

(** [Matisse.query(command, numeric_result, raise_on_error)].  The
    method calls itself to fetch the error code, so [depth] is the
    number of stack frames the interpreter still allows; with none
    left the call raises [RecursionError].  [tr] is what has been done
    so far, and the trace returned extends it. *)
Fixpoint query (depth : nat) (tr : list op) (command : string)
         (numeric_result raise_on_error : bool) : res value * list op :=
  match depth with
  | O => (Raise RecursionError, tr)
  | S depth' =>
      let tr1 := tr ++ [Exchange command] in
      match dev (sent tr) command with
      | LinkError => (Raise VisaIOError, tr1)
      | Reply raw =>
          let result := PyStr.strip raw in
          if PyStr.startswith ERROR_SENTINEL result then
            if raise_on_error then
              match query depth' tr1 ERROR_CODE_QUERY false true with
              | (Ok (VStr code), tr2) =>
                  (Raise (RuntimeError (error_message command code)), tr2)
              | (Ok (VFloat _), tr2) => (Raise TypeError, tr2)
              | (Raise e, tr2) => (Raise e, tr2)
              end
            else (Ok (VStr result), tr1)
          else if numeric_result then
            (parse_numeric result, tr1 ++ [ParseNumeric result])
          else (Ok (VStr result), tr1)
      end
  end.

(** [Matisse.bifi_wavelength()] *)
Definition bifi_wavelength (depth : nat) (tr : list op) : res value * list op :=
  query depth tr "MOTBI:WL?" true true.

(** [Matisse.wavemeter_wavelength()] *)
Definition wavemeter_wavelength (tr : list op) : res value * list op :=
  (Raise NotImplementedError, tr).

End Query.

Arguments VStr {F} s.
Arguments VFloat {F} x.

(** Concrete instruments used in the examples below. *)

Definition LF : string := String (ascii_of_nat 10) EmptyString.

(** Rejects every command with error 12 and a line feed, and answers the
    error-code query with a line of text. *)
Definition dev_rejecting : instrument :=
  fun _ command =>
    if String.eqb command ERROR_CODE_QUERY
    then Reply ("ERROR:CODE 12" ++ LF)
    else Reply ("!ERROR 12" ++ LF).

(** A [float] that reads nothing: enough where no number is parsed. *)
Definition no_float : string -> option Q := fun _ => None.

End Matisse.

(** ** [matisse/lock_correction_thread.py]: the lock supervisor *)

Module LockCorrectionThread.

(** Class constants, as the f-strings of [attempt_piezo_corrections]
    print them. *)
Definition PIEZO_ETALON_CORRECTION_POS : string := "0".
Definition SLOW_PIEZO_CORRECTION_POS : string := "0.35".
Definition REFCELL_CORRECTION_POS : string := "0.35".

(** The two status methods of [self.matisse] the loop asks, and the
    commands it sends ([self.matisse.query(...)] with its result dropped,
    and [self.matisse.set_refcell_pos(...)]). *)
Inductive status : Type :=
| fast_piezo_locked
| is_any_limit_reached.

Inductive command : Type :=
| query (text : string)
| set_refcell_pos (pos : string).

Inductive event : Type :=
| EvEnter (r : res unit)          (* ControlLoopsOn(self.matisse).__enter__() *)
| EvExit (exc : option exn)       (* its __exit__, with the exception in flight *)
| EvTimerStart
| EvTimerCancel
| EvQsize (n : nat)               (* self.messages.qsize() *)
| EvAsk (q : status) (r : res bool)
| EvSend (c : command) (r : res unit)
| EvPrint (text : string)
| EvSleep (seconds : nat).

(** The loop leaves through one of two [break]s: a message in the queue
    ([TimedOut]) or a limit reached while not locked ([LimitBeforeLock]).
    [Locked] is the third outcome the design document lists for a lock
    attempt. *)
Inductive terminal : Type :=
| Locked
| TimedOut
| LimitBeforeLock.

Inductive ctl : Type :=
| Continue
| Break (t : terminal).

(** How the [with] statement of [run] ends when its body ended: the loop
    broke, or the body raised and [__exit__] swallowed the exception. *)
Inductive outcome : Type :=
| Ended (t : terminal)
| Suppressed (e : exn).

Inductive timer_state : Type :=
| Idle
| Armed
| Cancelled
| Fired.

(** Everything outside the thread.  Time is counted in the seconds the
    loop has slept: [time.sleep(1)] is the only step that takes any, a
    call on the instrument takes none, so that [now] numbers the looks
    at the queue; how long a run takes when its steps take time is the
    matter of [WallClock] below.  The timer is due [timeout] seconds
    after its start, which is time 0, and [timer_wins_tie] says whether
    its message is already in the queue when the loop looks at that very
    moment.  Other threads only put messages into the queue; [puts_at t]
    are those that arrived since the look before the one at time [t].
    [ControlLoopsOn] is not part of these sources, so what it does is read
    from the world: [enter] is its construction and [__enter__], and
    [exit_] is [__exit__], which returns whether it swallows the exception
    it is given. *)
Record world : Type := {
  timeout : Q;
  timer_wins_tie : bool;
  enter : res unit;
  exit_ : option exn -> res bool;
  locked_at : nat -> res bool;
  limit_at : nat -> res bool;
  send_at : nat -> command -> res unit;
  puts_at : nat -> list string   (* put by other threads since the last look *)
}.

(** [messages] is the queue as the loop found it at its last look, and
    [timer] the timer as of then: what arrives during a pass shows at the
    next look. *)
Record state : Type := {
  now : nat;
  timer : timer_state;
  messages : list string;
  trace : list event
}.

Definition seconds (t : nat) : Q := inject_Z (Z.of_nat t).

Definition timer_due (w : world) (t : nat) : bool :=
  if timer_wins_tie w
  then Qle_bool (timeout w) (seconds t)
  else negb (Qle_bool (seconds t) (timeout w)).

(** A small state-and-exception monad for the thread's code. *)
Definition M (A : Type) : Type := state -> res A * state.

Definition ret {A} (a : A) : M A := fun s => (Ok a, s).

Definition bind {A B} (m : M A) (k : A -> M B) : M B :=
  fun s => match m s with
           | (Ok a, s') => k a s'
           | (Raise e, s') => (Raise e, s')
           end.

Notation "x <- m ;; k" := (bind m (fun x => k))
  (at level 61, m at next level, right associativity).
Notation "m ;; k" := (bind m (fun _ => k))
  (at level 61, right associativity).

Definition emit (e : event) (s : state) : state :=
  {| now := now s; timer := timer s; messages := messages s;
     trace := trace s ++ [e] |}.

Definition log (e : event) : M unit := fun s => (Ok tt, emit e s).

(** [timer.start()] *)
Definition timer_start : M unit :=
  fun s => (Ok tt,
            emit EvTimerStart
              {| now := now s; timer := Armed; messages := messages s;
                 trace := trace s |}).

(** [timer.cancel()]: a timer that has fired stays fired. *)
Definition cancelled (t : timer_state) : timer_state :=
  match t with
  | Fired => Fired
  | _ => Cancelled
  end.

Definition timer_cancel : M unit :=
  fun s => (Ok tt,
            emit EvTimerCancel
              {| now := now s; timer := cancelled (timer s);
                 messages := messages s; trace := trace s |}).

(** [print(text)] *)
Definition print (text : string) : M unit := log (EvPrint text).

Section Thread.

Variable w : world.

(** The queue as the loop finds it: what other threads have put since
    it last looked, and the timer's ['stop'] once an armed timer is
    due. *)
Definition deliver (s : state) : state :=
  let fires := match timer s with Armed => timer_due w (now s) | _ => false end in
  {| now := now s;
     timer := if fires then Fired else timer s;
     messages := messages s ++ puts_at w (now s)
                   ++ (if fires then ["stop"] else []);
     trace := trace s |}.

(** [self.messages.qsize()] *)
Definition qsize : M nat :=
  fun s => let s' := deliver s in
           let n := List.length (messages s') in
           (Ok n, emit (EvQsize n) s').

(** [self.matisse.fast_piezo_locked()], [self.matisse.is_any_limit_reached()] *)
Definition ask (q : status) : M bool :=
  fun s =>
    let r := match q with
             | fast_piezo_locked => locked_at w (now s)
             | is_any_limit_reached => limit_at w (now s)
             end in
    (match r with Ok b => Ok b | Raise e => Raise e end, emit (EvAsk q r) s).

(** [self.matisse.query(text)], [self.matisse.set_refcell_pos(pos)] *)
Definition send (c : command) : M unit :=
  fun s => let r := send_at w (now s) c in (r, emit (EvSend c r) s).

(** [time.sleep(seconds)] *)
Definition sleep (n : nat) : M unit :=
  fun s => (Ok tt,
            emit (EvSleep n)
              {| now := now s + n; timer := timer s; messages := messages s;
                 trace := trace s |}).

Definition attempt_piezo_corrections : M unit :=
  send (query ("PIEZOETALON:BASELINE " ++ PIEZO_ETALON_CORRECTION_POS)) ;;
  send (query ("SLOWPIEZO:NOW " ++ SLOW_PIEZO_CORRECTION_POS)) ;;
  send (set_refcell_pos REFCELL_CORRECTION_POS).

Definition WARN_LOCKED : string :=
  "WARNING: A component has hit a limit while the laser is locked. "
  ++ "Attempting automatic corrections.".

Definition WARN_UNLOCKED : string :=
  "WARNING: A component has hit a limit before the laser could lock. "
  ++ "Stopping control loops.".

(** One pass through the body of [while True]. *)
Definition cycle : M ctl :=
  n <- qsize ;;
  if n =? 0 then
    locked <- ask fast_piezo_locked ;;
    c <- (if locked then
            timer_cancel ;;
            limit <- ask is_any_limit_reached ;;
            (if limit then
               print WARN_LOCKED ;;
               attempt_piezo_corrections
             else ret tt) ;;
            ret Continue
          else
            limit <- ask is_any_limit_reached ;;
            if limit then
              print WARN_UNLOCKED ;;
              timer_cancel ;;
              ret (Break LimitBeforeLock)
            else ret Continue) ;;
    match c with
    | Continue => sleep 1 ;; ret Continue
    | Break t => ret (Break t)
    end
  else
    timer_cancel ;;
    ret (Break TimedOut).

(** [while True: ...], run for at most [fuel] passes; [None] when the
    loop is still going after that many. *)
Fixpoint loop (fuel : nat) (s : state) : option (res terminal * state) :=
  match fuel with
  | O => None
  | S fuel' =>
      match cycle s with
      | (Ok Continue, s') => loop fuel' s'
      | (Ok (Break t), s') => Some (Ok t, s')
      | (Raise e, s') => Some (Raise e, s')
      end
  end.

(** The thread as [__init__] leaves it: the timer of [run] is created
    but not started. *)
Definition init : state :=
  {| now := 0; timer := Idle; messages := []; trace := [] |}.

(** The state in which the loop starts: [__enter__] has returned and
    [timer.start()] has been called. *)
Definition started : state :=
  snd (timer_start (emit (EvEnter (Ok tt)) init)).

(** Leaving the [with] block: [__exit__] is called however the body
    ended.  An exception of the body goes on unless [__exit__] returns
    true, and an exception of [__exit__] replaces it. *)
Definition leave (body : res terminal) (s : state) : res outcome * state :=
  match body with
  | Ok t =>
      (match exit_ w None with
       | Ok _ => Ok (Ended t)
       | Raise e' => Raise e'
       end,
       emit (EvExit None) s)
  | Raise e =>
      (match exit_ w (Some e) with
       | Ok true => Ok (Suppressed e)
       | Ok false => Raise e
       | Raise e' => Raise e'
       end,
       emit (EvExit (Some e)) s)
  end.

(** [LockCorrectionThread.run()]: [with ControlLoopsOn(self.matisse):]
    around [timer.start()] and the loop.  When [__enter__] raises, the
    block is not entered and [__exit__] is not called. *)
Definition run (fuel : nat) : option (res outcome * state) :=
  match enter w with
  | Raise e => Some (Raise e, emit (EvEnter (Raise e)) init)
  | Ok _ =>
      match loop fuel started with
      | None => None
      | Some (body, s) => Some (leave body s)
      end
  end.

End Thread.

(** The three commands of the automatic correction, in the order
    [attempt_piezo_corrections] sends them. *)
Definition correction_commands : list command :=
  [ query "PIEZOETALON:BASELINE 0";
    query "SLOWPIEZO:NOW 0.35";
    set_refcell_pos "0.35" ].

(** The commands sent over a trace, in order. *)
Definition sends (tr : list event) : list command :=
  flat_map (fun e => match e with EvSend c _ => [c] | _ => [] end) tr.

Definition is_exit (e : event) : bool :=
  match e with
  | EvExit _ => true
  | _ => false
  end.

(** The exception an instrument call of the loop raised, if it did. *)
Definition raised (e : event) : option exn :=
  match e with
  | EvAsk _ (Raise x) => Some x
  | EvSend _ (Raise x) => Some x
  | _ => None
  end.

(** The corrections a pass at time [t] sends when it goes through, given
    the two status bits over time. *)
Definition corrections_due (locked limit : nat -> bool) (t : nat) : list command :=
  if locked t && limit t then correction_commands else [].

(** What a pass adds to the trace when the queue is empty, the laser is
    not locked and no limit is reached. *)
Definition idle_pass : list event :=
  [ EvQsize 0;
    EvAsk fast_piezo_locked (Ok false);
    EvAsk is_any_limit_reached (Ok false);
    EvSleep 1 ].

(** What a pass adds when the queue is empty, the laser is locked and no
    limit is reached; and when a limit is reached and every command is
    accepted. *)
Definition locked_pass : list event :=
  [ EvQsize 0;
    EvAsk fast_piezo_locked (Ok true);
    EvTimerCancel;
    EvAsk is_any_limit_reached (Ok false);
    EvSleep 1 ].

Definition correcting_pass : list event :=
  [ EvQsize 0;
    EvAsk fast_piezo_locked (Ok true);
    EvTimerCancel;
    EvAsk is_any_limit_reached (Ok true);
    EvPrint WARN_LOCKED;
    EvSend (query "PIEZOETALON:BASELINE 0") (Ok tt);
    EvSend (query "SLOWPIEZO:NOW 0.35") (Ok tt);
    EvSend (set_refcell_pos "0.35") (Ok tt);
    EvSleep 1 ].

(** What the look at time [t] finds in a queue that was empty until
    then, the timer being still armed. *)
Definition inbox (w : world) (t : nat) : list string :=
  puts_at w t ++ (if timer_due w t then ["stop"] else []).

(** What a finished run reports: how it ended, when, what the queue
    held, and which commands it had sent. *)
Definition report (x : option (res outcome * state))
  : option (res outcome * nat * list string * list command) :=
  option_map
    (fun y => (fst y, now (snd y), messages (snd y), sends (trace (snd y)))) x.

(** A world in which nothing fails and no other thread writes to the
    queue: the instrument's two status bits over time are all there is. *)
Definition calm (T : Q) (tie : bool) (locked limit : nat -> bool) : world :=
  {| timeout := T;
     timer_wins_tie := tie;
     enter := Ok tt;
     exit_ := fun _ => Ok false;
     locked_at := fun t => Ok (locked t);
     limit_at := fun t => Ok (limit t);
     send_at := fun _ _ => Ok tt;
     puts_at := fun _ => [] |}.

(** Scenario A: 5 s timeout, never locked, no limit. *)
Definition scenario_A : world :=
  calm (5 # 1) true (fun _ => false) (fun _ => false).

(** Scenario B: 30 s timeout, locked from t = 3 on, no limit ever. *)
Definition scenario_B : world :=
  calm (30 # 1) true (fun t => 3 <=? t) (fun _ => false).

(** Scenario D: 30 s timeout, never locked, limit reached from t = 2 on. *)
Definition scenario_D : world :=
  calm (30 # 1) true (fun _ => false) (fun t => 2 <=? t).

(** Locked with a limit reached at t = 0 and still at t = 1; another
    thread puts a message into the queue before t = 2. *)
Definition limit_persists : world :=
  {| timeout := 30 # 1;
     timer_wins_tie := true;
     enter := Ok tt;
     exit_ := fun _ => Ok false;
     locked_at := fun _ => Ok true;
     limit_at := fun _ => Ok true;
     send_at := fun _ _ => Ok tt;
     puts_at := fun t => if t =? 2 then ["halt"] else [] |}.

(** The link fails on the limit query of the second pass. *)
Definition link_drops : world :=
  {| timeout := 30 # 1;
     timer_wins_tie := true;
     enter := Ok tt;
     exit_ := fun _ => Ok false;
     locked_at := fun _ => Ok false;
     limit_at := fun t => if t =? 1 then Raise VisaIOError else Ok false;
     send_at := fun _ _ => Ok tt;
     puts_at := fun _ => [] |}.

End LockCorrectionThread.

(** ** The lock supervisor on a wall clock *)

Module WallClock.
Import LockCorrectionThread.

(** The steps of [run] that take time, one for each statement of the
    loop that calls out of it. *)
Inductive step : Type :=
| Look                        (* self.messages.qsize() *)
| Ask (q : status)            (* a status method of self.matisse *)
| Send (c : command)          (* a command of attempt_piezo_corrections *)
| Print (text : string)
| Cancel                      (* timer.cancel() *)
| Sleep (seconds : nat).      (* time.sleep(seconds) *)

(** Everything outside the thread, on a clock of seconds that starts
    when [timer.start()] returns.  Every step takes the time the world
    says, [lapse t k] for the step [k] begun at time [t], and has its
    effect at its end: the queue is read, the instrument answers and the
    timer is cancelled at the time the call returns.  The timer puts its ['stop'] into the queue
    [timeout] seconds after the start unless it was cancelled before;
    [timer_wins_tie] says whether the message is already there for a
    step that ends at that very moment.  [put_by t] is the number of
    messages other threads have put into the queue by time [t]; nobody
    takes one out. *)
Record world : Type := {
  timeout : Q;
  timer_wins_tie : bool;
  lapse : Q -> step -> Q;
  status_at : Q -> status -> res bool;
  send_at : Q -> command -> res unit;
  put_by : Q -> nat
}.

(** [trace] holds the steps taken, each with the time at which it
    ended. *)
Record state : Type := {
  clock : Q;
  timer : timer_state;
  trace : list (Q * step)
}.

Definition due (w : world) (t : Q) : bool :=
  if timer_wins_tie w
  then Qle_bool (timeout w) t
  else negb (Qle_bool t (timeout w)).

(** The timer at time [t]: an armed timer has fired once it is due. *)
Definition settle (w : world) (t : Q) (x : timer_state) : timer_state :=
  match x with
  | Armed => if due w t then Fired else Armed
  | _ => x
  end.

Definition M (A : Type) : Type := state -> res A * state.

Definition ret {A} (a : A) : M A := fun s => (Ok a, s).

Definition bind {A B} (m : M A) (k : A -> M B) : M B :=
  fun s => match m s with
           | (Ok a, s') => k a s'
           | (Raise e, s') => (Raise e, s')
           end.

Declare Scope clock_scope.
Delimit Scope clock_scope with clock.
Notation "x <- m ;; k" := (bind m (fun x => k))
  (at level 61, m at next level, right associativity) : clock_scope.
Notation "m ;; k" := (bind m (fun _ => k))
  (at level 61, right associativity) : clock_scope.
Local Open Scope clock_scope.

Section Thread.

Variable w : world.

(** The time a step takes goes by, and the timer fires if it is due by
    then. *)
Definition take (k : step) : M unit :=
  fun s =>
    let t := (clock s + lapse w (clock s) k)%Q in
    (Ok tt,
     {| clock := t; timer := settle w t (timer s); trace := trace s ++ [(t, k)] |}).

(** [self.messages.qsize()]: what other threads have put, and the
    timer's message once it has fired. *)
Definition qsize : M nat :=
  take Look ;;
  fun s => (Ok (put_by w (clock s)
                + match timer s with Fired => 1 | _ => 0 end), s).

(** [self.matisse.fast_piezo_locked()], [self.matisse.is_any_limit_reached()] *)
Definition ask (q : status) : M bool :=
  take (Ask q) ;;
  fun s => (status_at w (clock s) q, s).

(** [self.matisse.query(text)], [self.matisse.set_refcell_pos(pos)] *)
Definition send (c : command) : M unit :=
  take (Send c) ;;
  fun s => (send_at w (clock s) c, s).

(** [time.sleep(seconds)] *)
Definition sleep (n : nat) : M unit := take (Sleep n).

(** [print(text)] *)
Definition print (text : string) : M unit := take (Print text).

(** [timer.cancel()]: a timer that has fired by then stays fired. *)
Definition timer_cancel : M unit :=
  take Cancel ;;
  fun s => (Ok tt,
            {| clock := clock s; timer := cancelled (timer s); trace := trace s |}).

Definition attempt_piezo_corrections : M unit :=
  send (query ("PIEZOETALON:BASELINE " ++ PIEZO_ETALON_CORRECTION_POS)) ;;
  send (query ("SLOWPIEZO:NOW " ++ SLOW_PIEZO_CORRECTION_POS)) ;;
  send (set_refcell_pos REFCELL_CORRECTION_POS).

(** One pass through the body of [while True]. *)
Definition cycle : M ctl :=
  n <- qsize ;;
  if n =? 0 then
    locked <- ask fast_piezo_locked ;;
    c <- (if locked then
            timer_cancel ;;
            limit <- ask is_any_limit_reached ;;
            (if limit then
               print WARN_LOCKED ;;
               attempt_piezo_corrections
             else ret tt) ;;
            ret Continue
          else
            limit <- ask is_any_limit_reached ;;
            if limit then
              print WARN_UNLOCKED ;;
              timer_cancel ;;
              ret (Break LimitBeforeLock)
            else ret Continue) ;;
    match c with
    | Continue => sleep 1 ;; ret Continue
    | Break t => ret (Break t)
    end
  else
    timer_cancel ;;
    ret (Break TimedOut).

(** [while True: ...], run for at most [fuel] passes; [None] when the
    loop is still going after that many. *)
Fixpoint loop (fuel : nat) (s : state) : option (res terminal * state) :=
  match fuel with
  | O => None
  | S fuel' =>
      match cycle s with
      | (Ok Continue, s') => loop fuel' s'
      | (Ok (Break t), s') => Some (Ok t, s')
      | (Raise e, s') => Some (Raise e, s')
      end
  end.

End Thread.

(** The state in which the loop starts: [timer.start()] has just
    returned. *)
Definition started : state :=
  {| clock := 0; timer := Armed; trace := [] |}.

(** The commands sent over a trace, and the times at which the loop
    looked at the queue. *)
Definition sends (tr : list (Q * step)) : list command :=
  flat_map (fun x => match snd x with Send c => [c] | _ => [] end) tr.

Definition looks (tr : list (Q * step)) : list Q :=
  flat_map (fun x => match snd x with Look => [Qred (fst x)] | _ => [] end) tr.

(** The bound on the time a step takes when each step overruns by at
    most [d] seconds: a sleep lasts its seconds and up to [d] more,
    every other step up to [d]. *)
Definition allowance (d : Q) (k : step) : Q :=
  match k with
  | Sleep n => (inject_Z (Z.of_nat n) + d)%Q
  | _ => d
  end.

(** What a finished loop reports: how it ended, when, and when it had
    looked at the queue. *)
Definition report (x : option (res terminal * state))
  : option (res terminal * Q * list Q) :=
  option_map (fun y => (fst y, Qred (clock (snd y)), looks (trace (snd y)))) x.

(** Scenario A on an instrument that takes 0.3 s to answer a status
    call: 5 s timeout, never locked, no limit, nobody else writing to
    the queue; a sleep takes its seconds and nothing else takes time. *)
Definition slow_link : world :=
  {| timeout := 5 # 1;
     timer_wins_tie := true;
     lapse := fun _ k => match k with
                         | Ask _ => (3 # 10)%Q
                         | Sleep n => inject_Z (Z.of_nat n)
                         | _ => 0%Q
                         end;
     status_at := fun _ _ => Ok false;
     send_at := fun _ _ => Ok tt;
     put_by := fun _ => 0 |}.

(** The same with an instrument that answers at once. *)
Definition prompt_link : world :=
  {| timeout := 5 # 1;
     timer_wins_tie := true;
     lapse := fun _ k => match k with
                         | Sleep n => inject_Z (Z.of_nat n)
                         | _ => 0%Q
                         end;
     status_at := fun _ _ => Ok false;
     send_at := fun _ _ => Ok tt;
     put_by := fun _ => 0 |}.

End WallClock.

(** ** [gui/control_application.py]: the slots the design document covers *)

Module ControlApplication.

Definition EXIT_CODE_RESTART : Z := 42.

(** Wavelengths are Python floats: IEEE 754 binary64 numbers, with the
    subtraction, [abs] and the comparison of that arithmetic.  The
    threshold is the integer 10, which Python compares with a float by
    value; as a float it is exact. *)
Definition CONFIRM_WAVELENGTH_CHANGE_THRESHOLD : float := 10%float.

(** The four control loops of the 'Toggle Control Loop' menu.  A loop
    names both its menu action ([slow_pz_control_action], ...) and the
    setter [Matisse.set_<loop>_control]. *)
Inductive control_loop : Type :=
| slow_piezo
| thin_etalon
| piezo_etalon
| fast_piezo.

(** [QMessageBox.Yes], [QMessageBox.No] *)
Inductive button : Type :=
| Yes
| No.

(** Methods of [self.matisse] the slots call or hand to a thread. *)
Inductive matisse_call : Type :=
| set_control (loop : control_loop) (enabled : bool)
| set_wavelength (target : float).

Inductive gui_event : Type :=
| Print (text : string)
| PrintSetting (target : float)           (* "Setting wavelength to {target} nm..." *)
| SetChecked (action : control_loop) (checked : bool)
| Call (c : matisse_call) (r : res unit)
| ReadWavemeter (r : res float)           (* self.matisse.wavemeter_wavelength() *)
| GetDouble (value : float) (answer : float * bool)
| Warning (target : float) (answer : button)   (* the 'Large Wavelength Change' box *)
| StartThread (c : matisse_call).

(** The instrument object and the user, as the slots meet them. *)
Record desk : Type := {
  target_wavelength : option float;   (* None: no target set yet *)
  wavemeter : res float;
  get_double : float -> float * bool; (* QInputDialog.getDouble: value and ok *)
  warning_answer : float -> button;
  setter : control_loop -> bool -> res unit
}.

(** The slots write to a trace and may raise; the exception goes to the
    [handled_slot] decorator, which is not part of these sources. *)
Definition G (A : Type) : Type := list gui_event -> res A * list gui_event.

Definition ret {A} (a : A) : G A := fun tr => (Ok a, tr).

Definition bind {A B} (m : G A) (k : A -> G B) : G B :=
  fun tr => match m tr with
            | (Ok a, tr') => k a tr'
            | (Raise e, tr') => (Raise e, tr')
            end.

Notation "x <- m ;; k" := (bind m (fun x => k))
  (at level 61, m at next level, right associativity).
Notation "m ;; k" := (bind m (fun _ => k))
  (at level 61, right associativity).

Definition emit (e : gui_event) : G unit := fun tr => (Ok tt, tr ++ [e]).

Section Slots.

Variable d : desk.

(** [self.matisse.set_<loop>_control(enabled)] *)
Definition call_set_control (loop : control_loop) (enabled : bool) : G unit :=
  fun tr =>
    (setter d loop enabled,
     tr ++ [Call (set_control loop enabled) (setter d loop enabled)]).

Definition wavemeter_wavelength : G float :=
  fun tr => (wavemeter d, tr ++ [ReadWavemeter (wavemeter d)]).

Definition getDouble (value : float) : G (float * bool) :=
  fun tr => (Ok (get_double d value), tr ++ [GetDouble value (get_double d value)]).

Definition warning (target : float) : G button :=
  fun tr => (Ok (warning_answer d target), tr ++ [Warning target (warning_answer d target)]).

Definition is_No (b : button) : bool :=
  match b with No => true | Yes => false end.

(** [ControlApplication.set_wavelength_dialog].  [go] is false where
    the source returns early on the answer No. *)
Definition set_wavelength_dialog : G unit :=
  current_wavelength <-
    match target_wavelength d with
    | Some x => ret x
    | None => wavemeter_wavelength
    end ;;
  r <- getDouble current_wavelength ;;
  let (target, success) := r in
  if success then
    go <- (if PrimFloat.leb CONFIRM_WAVELENGTH_CHANGE_THRESHOLD
                            (PrimFloat.abs (PrimFloat.sub current_wavelength target))
           then answer <- warning target ;; ret (negb (is_No answer))
           else ret true) ;;
    if go then
      emit (PrintSetting target) ;;
      emit (StartThread (set_wavelength target))
    else ret tt
  else ret tt.

Definition verb (checked : bool) : string :=
  if checked then "Locking" else "Unlocking".

(** The four [toggle_*_control] slots. *)
Definition toggle_slow_piezo_control (checked : bool) : G unit :=
  emit (Print (verb checked ++ " slow piezo.")) ;;
  emit (SetChecked slow_piezo (negb checked)) ;;
  call_set_control slow_piezo checked ;;
  emit (SetChecked slow_piezo checked).

Definition toggle_thin_etalon_control (checked : bool) : G unit :=
  emit (Print (verb checked ++ " thin etalon.")) ;;
  emit (SetChecked thin_etalon (negb checked)) ;;
  call_set_control thin_etalon checked ;;
  emit (SetChecked thin_etalon checked).

Definition toggle_piezo_etalon_control (checked : bool) : G unit :=
  emit (Print (verb checked ++ " piezo etalon.")) ;;
  emit (SetChecked piezo_etalon (negb checked)) ;;
  call_set_control piezo_etalon checked ;;
  emit (SetChecked piezo_etalon checked).

Definition toggle_fast_piezo_control (checked : bool) : G unit :=
  emit (Print (verb checked ++ " fast piezo.")) ;;
  emit (SetChecked fast_piezo (negb checked)) ;;
  call_set_control piezo_etalon checked ;;
  emit (SetChecked fast_piezo checked).

End Slots.

(** The wavelength the dialog starts from: the target when one is set,
    the wavemeter's reading otherwise. *)
Definition current_wavelength (d : desk) : res float :=
  match target_wavelength d with
  | Some x => Ok x
  | None => wavemeter d
  end.

(** What the dialog does before it asks for a number. *)
Definition preamble (d : desk) : list gui_event :=
  match target_wavelength d with
  | Some _ => []
  | None => [ReadWavemeter (wavemeter d)]
  end.

(** The calls made on the instrument object over a trace, in order. *)
Definition calls (tr : list gui_event) : list matisse_call :=
  flat_map (fun e => match e with Call c _ => [c] | _ => [] end) tr.

(** Whether the confirmation box was shown, and which wavelengths were
    handed to a [set_wavelength] thread. *)
Definition confirmations (tr : list gui_event) : list button :=
  flat_map (fun e => match e with Warning _ a => [a] | _ => [] end) tr.

Definition dispatched (tr : list gui_event) : list float :=
  flat_map (fun e => match e with StartThread (set_wavelength x) => [x] | _ => [] end) tr.

(** The user at the wavelength dialog: the target is [current], the
    user enters [requested] and accepts; asked to confirm, the user
    answers [answer]. *)
Definition request (current requested : float) (answer : button) : desk :=
  {| target_wavelength := Some current;
     wavemeter := Raise NotImplementedError;
     get_double := fun _ => (requested, true);
     warning_answer := fun _ => answer;
     setter := fun _ _ => Ok tt |}.

(** Scenario E: the target is 800 nm and the user enters [requested]. *)
Definition scenario_E (requested : float) (answer : button) : desk :=
  request 800%float requested answer.

(** The number a float stands for, as a fraction; none for the
    infinities and NaN. *)
Definition exact_value (x : float) : option Q :=
  match Prim2SF x with
  | S754_zero _ => Some (0 # 1)%Q
  | S754_finite sign m e =>
      Some ((if sign then inject_Z (Z.neg m) else inject_Z (Z.pos m))
            * Qpower (2 # 1) e)%Q
  | S754_infinity _ => None
  | S754_nan => None
  end.

(** The float the dialog holds for a wavelength of [n] thousandths of a
    nanometre, the three decimals it shows: the float nearest to
    [n / 1000], which is what the correctly rounded quotient of the two
    integers is. *)
Definition thousandths (n : Z) : float :=
  PrimFloat.div (PrimFloat.of_uint63 (Uint63.of_Z n)) 1000%float.

End ControlApplication.

(** ** More of Python's [str], and [Matisse.__init__] *)

Module PyStrMore.

(** Every character of [s] is a space. *)
Fixpoint allspace (s : string) : bool :=
  match s with
  | EmptyString => true
  | String c s' => PyStr.isspace c && allspace s'
  end.

End PyStrMore.

Module MatisseInit.
Import Matisse.

(** [IOError(msg)]: the exception [__init__] raises in place of a
    [VisaIOError]. *)
Definition IOError (msg : string) : exn := OtherError ("IOError: " ++ msg).

Definition CANT_REACH : string :=
  "Can't reach Matisse. Make sure it's on and connected via USB.".

Section Init.

Variable F : Type.
Variable py_float : string -> option F.
Variable dev : instrument.

(** The [except VisaIOError] clause of [__init__]: a [VisaIOError] becomes
    an [IOError], any other exception goes on as it is. *)
Definition reraise (e : exn) : exn :=
  match e with
  | VisaIOError => IOError CANT_REACH
  | _ => e
  end.

(** [Matisse.__init__()].  [resource_manager] is what
    [visa.ResourceManager()] does, outside the [try]; [open_resource] what
    [resource_manager.open_resource(self.DEVICE_ID)] does, inside it,
    followed by [self.query('ERROR:CLEAR')]. *)
Definition init (resource_manager open_resource : res unit) (depth : nat)
  : res unit * list op :=
  match resource_manager with
  | Raise e => (Raise e, [])
  | Ok _ =>
      match open_resource with
      | Raise e => (Raise (reraise e), [])
      | Ok _ =>
          match query F py_float dev depth [] "ERROR:CLEAR" false true with
          | (Ok _, tr) => (Ok tt, tr)
          | (Raise e, tr) => (Raise (reraise e), tr)
          end
      end
  end.

End Init.

(** An instrument that answers everything with an error response, and one
    that does so twice before it gives a code. *)
Definition dev_always_error : instrument := fun _ _ => Reply "!ERROR 5".

Definition dev_error_twice : instrument :=
  fun history _ =>
    if List.length history <? 2 then Reply "!ERROR 5" else Reply "ERROR:CODE 7".

(** An instrument that reports every position as 0.25 and acknowledges
    every other command, and a [float] that keeps the literal it is
    given. *)
Definition dev_positions : instrument :=
  fun _ command =>
    if PyStr.startswith "?" (string_of_list_ascii (rev (list_ascii_of_string command)))
    then Reply ("POS 0.25" ++ LF)
    else Reply ("OK" ++ LF).

Definition literal : string -> option string := fun s => Some s.

End MatisseInit.

(** ** Counting the looks and the sleeps of the lock supervisor *)

Module LockTrace.
Import LockCorrectionThread.

Definition is_qsize (e : event) : bool :=
  match e with EvQsize _ => true | _ => false end.

Definition is_sleep (e : event) : bool :=
  match e with EvSleep _ => true | _ => false end.

Definition is_cancel (e : event) : bool :=
  match e with EvTimerCancel => true | _ => false end.

(** How many times the loop looked at the queue, and how many times it
    slept. *)
Definition looks (tr : list event) : nat := List.length (filter is_qsize tr).
Definition sleeps (tr : list event) : nat := List.length (filter is_sleep tr).

(** The reference-cell command fails at time 0. *)
Definition refcell_fails : world :=
  {| timeout := 30 # 1;
     timer_wins_tie := true;
     enter := Ok tt;
     exit_ := fun _ => Ok false;
     locked_at := fun _ => Ok true;
     limit_at := fun _ => Ok true;
     send_at := fun _ c => match c with
                           | set_refcell_pos _ => Raise VisaIOError
                           | query _ => Ok tt
                           end;
     puts_at := fun _ => [] |}.

(** A message is in the queue before the thread starts. *)
Definition stale_message : world :=
  {| timeout := 30 # 1;
     timer_wins_tie := true;
     enter := Ok tt;
     exit_ := fun _ => Ok false;
     locked_at := fun _ => Ok true;
     limit_at := fun _ => Ok false;
     send_at := fun _ _ => Ok tt;
     puts_at := fun t => if t =? 0 then ["stop"] else [] |}.

End LockTrace.

(** ** [gui/control_application.py]: check marks, the lock menu, the
    position dialogs and the error dialog *)

Module Menu.
Import ControlApplication.

Definition loop_eqb (a b : control_loop) : bool :=
  match a, b with
  | slow_piezo, slow_piezo | thin_etalon, thin_etalon
  | piezo_etalon, piezo_etalon | fast_piezo, fast_piezo => true
  | _, _ => false
  end.

(** The check mark of the action [a] after the events [tr], when it was
    [before] them: [setChecked] on [a] sets it, nothing else does. *)
Fixpoint check_mark (tr : list gui_event) (a : control_loop) (before : bool) : bool :=
  match tr with
  | [] => before
  | SetChecked a' b :: tr' =>
      check_mark tr' a (if loop_eqb a a' then b else before)
  | _ :: tr' => check_mark tr' a before
  end.

(** The slot connected to the action of each loop in [setup_slots]. *)
Definition toggle (d : desk) (a : control_loop) : bool -> G unit :=
  match a with
  | slow_piezo => toggle_slow_piezo_control d
  | thin_etalon => toggle_thin_etalon_control d
  | piezo_etalon => toggle_piezo_etalon_control d
  | fast_piezo => toggle_fast_piezo_control d
  end.

(** A desk whose fast piezo action is clicked while the instrument
    rejects the piezo etalon setter. *)
Definition rejecting_desk : desk :=
  {| target_wavelength := None;
     wavemeter := Raise NotImplementedError;
     get_double := fun x => (x, false);
     warning_answer := fun _ => No;
     setter := fun l _ => match l with
                          | piezo_etalon => Raise (RuntimeError "rejected")
                          | _ => Ok tt
                          end |}.

End Menu.

Module Stabilization.

Abbreviation control_loop := ControlApplication.control_loop.
Abbreviation slow_piezo := ControlApplication.slow_piezo.
Abbreviation thin_etalon := ControlApplication.thin_etalon.
Abbreviation piezo_etalon := ControlApplication.piezo_etalon.
Abbreviation fast_piezo := ControlApplication.fast_piezo.

(** The checkable actions of the 'Stabilization' menu. *)
Inductive action : Type :=
| lock_laser_action
| auto_stabilize_action
| loop_action (l : control_loop).

(** The methods of [self.matisse] its slots call. *)
Inductive method : Type :=
| start_laser_lock_correction
| stop_laser_lock_correction
| stabilize_on
| stabilize_off.

Inductive ev : Type :=
| SetChecked (a : action) (b : bool)
| SetEnabled (a : action) (b : bool)
| Call (m : method) (r : res unit).

(** [self.control_loop_actions], in the order [setup_menus] lists them. *)
Definition control_loop_actions : list action :=
  [ loop_action slow_piezo; loop_action thin_etalon;
    loop_action piezo_etalon; loop_action fast_piezo ].

Definition Slot (A : Type) : Type := list ev -> res A * list ev.

Definition ret {A} (a : A) : Slot A := fun tr => (Ok a, tr).

Definition bind {A B} (m : Slot A) (k : A -> Slot B) : Slot B :=
  fun tr => match m tr with
            | (Ok a, tr') => k a tr'
            | (Raise e, tr') => (Raise e, tr')
            end.

Notation "m ;; k" := (bind m (fun _ => k))
  (at level 61, right associativity).

Definition emit (e : ev) : Slot unit := fun tr => (Ok tt, tr ++ [e]).

(** [[f(action) for action in actions]] for an [f] that cannot raise. *)
Definition for_each (f : action -> ev) (actions : list action) : Slot unit :=
  fun tr => (Ok tt, tr ++ map f actions).

Section Slots.

(** What each method of the instrument object does when called. *)
Variable matisse : method -> res unit.

Definition call (m : method) : Slot unit :=
  fun tr => (matisse m, tr ++ [Call m (matisse m)]).

(** [ControlApplication.toggle_lock_laser] *)
Definition toggle_lock_laser (checked : bool) : Slot unit :=
  emit (SetChecked lock_laser_action (negb checked)) ;;
  (if checked then
     call start_laser_lock_correction ;;
     for_each (fun a => SetEnabled a false) control_loop_actions ;;
     for_each (fun a => SetChecked a true) control_loop_actions
   else
     call stop_laser_lock_correction ;;
     for_each (fun a => SetEnabled a true) control_loop_actions ;;
     for_each (fun a => SetChecked a false) control_loop_actions) ;;
  emit (SetChecked lock_laser_action checked).

(** [ControlApplication.toggle_auto_stabilization] *)
Definition toggle_auto_stabilization (checked : bool) : Slot unit :=
  emit (SetChecked auto_stabilize_action (negb checked)) ;;
  (if checked then call stabilize_on else call stabilize_off) ;;
  emit (SetChecked auto_stabilize_action checked).

End Slots.

Definition action_eqb (a b : action) : bool :=
  match a, b with
  | lock_laser_action, lock_laser_action => true
  | auto_stabilize_action, auto_stabilize_action => true
  | loop_action x, loop_action y => Menu.loop_eqb x y
  | _, _ => false
  end.

(** The menu: which actions are checked and which are enabled. *)
Record menu : Type := {
  is_checked : action -> bool;
  is_enabled : action -> bool
}.

Definition update (f : action -> bool) (a : action) (b : bool) : action -> bool :=
  fun x => if action_eqb x a then b else f x.

Definition apply_ev (m : menu) (e : ev) : menu :=
  match e with
  | SetChecked a b => {| is_checked := update (is_checked m) a b;
                         is_enabled := is_enabled m |}
  | SetEnabled a b => {| is_checked := is_checked m;
                         is_enabled := update (is_enabled m) a b |}
  | Call _ _ => m
  end.

(** The menu after the events [tr]. *)
Definition replay (m : menu) (tr : list ev) : menu := fold_left apply_ev tr m.

Definition calls (tr : list ev) : list method :=
  flat_map (fun e => match e with Call m _ => [m] | _ => [] end) tr.

End Stabilization.

Module PositionDialogs.
Import Matisse.

Section Dialogs.

Variable F : Type.
Variable py_float : string -> option F.

(** [str(x)] for a float, as an f-string prints it. *)
Variable fmt : F -> string.

Variable dev : instrument.

(** [QInputDialog.getDouble(window, title, label, value)]: the number the
    user leaves in the box, and whether the dialog was accepted. *)
Variable get_double : string -> F -> F * bool.

(** An input dialog that was shown: its title, the value it offered and
    what came back. *)
Definition shown : Type := (string * F * (F * bool))%type.

(** The shape the three position slots share: read the position with a
    numeric query, offer it in an input dialog, and on acceptance send
    [write] followed by the number entered.  The instrument trace [tr] is
    extended; the dialogs shown are listed beside it. *)
Definition position_dialog (title read write : string) (depth : nat)
           (tr : list op) : res unit * list op * list shown :=
  match query F py_float dev depth tr read true true with
  | (Raise e, tr1) => (Raise e, tr1, [])
  | (Ok (VStr _), tr1) => (Raise TypeError, tr1, [])
  | (Ok (VFloat x), tr1) =>
      let answer := get_double title x in
      if snd answer then
        match query F py_float dev depth tr1 (write ++ fmt (fst answer)) false true with
        | (Ok _, tr2) => (Ok tt, tr2, [(title, x, answer)])
        | (Raise e, tr2) => (Raise e, tr2, [(title, x, answer)])
        end
      else (Ok tt, tr1, [(title, x, answer)])
  end.

(** [ControlApplication.set_piezo_eta_pos_dialog] *)
Definition set_piezo_eta_pos_dialog : nat -> list op -> res unit * list op * list shown :=
  position_dialog "Set Piezo Etalon Position" "PZETL:BASE?" "PZETL:BASE ".

(** [ControlApplication.set_slow_piezo_pos_dialog] *)
Definition set_slow_piezo_pos_dialog : nat -> list op -> res unit * list op * list shown :=
  position_dialog "Set Slow Piezo Position" "SPZT:NOW?" "SPZT:NOW ".

(** [ControlApplication.set_refcell_pos_dialog] *)
Definition set_refcell_pos_dialog : nat -> list op -> res unit * list op * list shown :=
  position_dialog "Set RefCell Position" "SCAN:NOW?" "SCAN:NOW ".

End Dialogs.

End PositionDialogs.

Module ErrorDialog.

(** [needle in hay] *)
Fixpoint contains (needle hay : string) : bool :=
  PyStr.startswith needle hay
  || match hay with
     | EmptyString => false
     | String _ hay' => contains needle hay'
     end.

(** ['_' * n] *)
Fixpoint underscores (n : nat) : string :=
  match n with
  | O => EmptyString
  | S n' => String "_" (underscores n')
  end.

Definition MAX_WIDTH : nat := 185.

(** The text part of [ControlApplication.error_dialog]: from the lines of
    the formatted traceback ([stack]) to the description it prints and the
    text it gives the message box.  [utils_path] is
    [os.path.join('gui', 'utils.py')]; [max] of no lines raises
    [ValueError]. *)
Definition error_dialog (utils_path : string) (stack : list string)
  : res (string * string) :=
  match stack with
  | [] => Raise ValueError
  | _ =>
      let desired_width := Nat.min (list_max (map String.length stack)) MAX_WIDTH in
      let description := last stack EmptyString in
      let stack' := removelast stack in
      let kept := filter (fun item => negb (contains utils_path item)) stack' in
      Ok (description,
          (description ++ underscores desired_width)
            ++ Matisse.LF ++ Matisse.LF ++ String.concat "" kept)%string
  end.

End ErrorDialog.

(** * Properties *)

(** ** Stripping keeps a prefix that has no space in it *)

Module PyStrFacts.
Import PyStr.

Lemma startswith_empty (p : string) :
  startswith p EmptyString = true -> p = EmptyString.
Proof. destruct p; simpl; [reflexivity | discriminate]. Qed.

Lemma startswith_rstrip (p : string) :
  nospace p = true ->
  forall s, startswith p s = true -> startswith p (rstrip s) = true.
Proof.
  induction p as [|a p IH]; intros Hp s Hs; [reflexivity|].
  destruct s as [|b s]; [discriminate|].
  simpl in Hp, Hs.
  apply andb_prop in Hp as [Ha Hp], Hs as [Hab Hs].
  apply Ascii.eqb_eq in Hab; subst b.
  specialize (IH Hp s Hs).
  simpl. destruct (rstrip s) as [|c r] eqn:E.
  - apply startswith_empty in IH; subst p.
    apply negb_true_iff in Ha. rewrite Ha. simpl.
    now rewrite Ascii.eqb_refl.
  - simpl. rewrite Ascii.eqb_refl. exact IH.
Qed.

Lemma lstrip_nonspace_head (c : ascii) (s : string) :
  isspace c = false -> lstrip (String c s) = String c s.
Proof. intros H; simpl; now rewrite H. Qed.

(** A response that begins with a space-free, non-empty prefix loses
    nothing at its front, and still begins with the prefix once
    stripped. *)
Lemma strip_keeps_prefix (a : ascii) (p s : string) :
  nospace (String a p) = true ->
  startswith (String a p) s = true ->
  strip s = rstrip s /\ startswith (String a p) (strip s) = true.
Proof.
  intros Hp Hs.
  assert (L : lstrip s = s).
  { destruct s as [|b s]; [discriminate|].
    simpl in Hp, Hs.
    apply andb_prop in Hp as [Ha _], Hs as [Hab _].
    apply Ascii.eqb_eq in Hab; subst b.
    apply lstrip_nonspace_head. now apply negb_true_iff. }
  unfold strip. rewrite L. split; [reflexivity|].
  now apply startswith_rstrip.
Qed.

End PyStrFacts.

(** ** [Matisse.query] and the error sentinel *)

Module MatisseFacts.
Import Matisse.

Section Query.

Variable F : Type.
Variable py_float : string -> option F.
Variable dev : instrument.

Abbreviation query := (Matisse.query F py_float dev).

(** The body of [query] with a frame to run in. *)
Lemma query_frame (depth : nat) tr command numeric roe :
  query (S depth) tr command numeric roe =
  let tr1 := tr ++ [Exchange command] in
  match dev (sent tr) command with
  | LinkError => (Raise VisaIOError, tr1)
  | Reply raw =>
      let result := PyStr.strip raw in
      if PyStr.startswith ERROR_SENTINEL result then
        if roe then
          match query depth tr1 ERROR_CODE_QUERY false true with
          | (Ok (VStr code), tr2) =>
              (Raise (RuntimeError (error_message command code)), tr2)
          | (Ok (VFloat _), tr2) => (Raise TypeError, tr2)
          | (Raise e, tr2) => (Raise e, tr2)
          end
        else (Ok (VStr result), tr1)
      else if numeric then
        (parse_numeric F py_float result, tr1 ++ [ParseNumeric result])
      else (Ok (VStr result), tr1)
  end.
Proof. reflexivity. Qed.

Lemma sentinel_nospace : PyStr.nospace ERROR_SENTINEL = true.
Proof. reflexivity. Qed.

(** The test [result.startswith('!ERROR')] succeeds on the stripped
    response whenever the response itself begins with the sentinel. *)
Lemma sentinel_seen (raw : string) :
  PyStr.startswith ERROR_SENTINEL raw = true ->
  PyStr.strip raw = PyStr.rstrip raw
  /\ PyStr.startswith ERROR_SENTINEL (PyStr.strip raw) = true.
Proof. apply PyStrFacts.strip_keeps_prefix, sentinel_nospace. Qed.

(** Without a numeric result asked for, a call only talks to the
    instrument, and what it returns is a string. *)
Lemma query_plain (depth : nat) :
  forall tr command roe,
  exists r ext,
    query depth tr command false roe = (r, tr ++ ext)
    /\ forallb is_exchange ext = true
    /\ (forall x, r <> Ok (VFloat x)).
Proof.
  induction depth as [|depth IH]; intros tr command roe.
  - exists (Raise RecursionError), []. simpl. rewrite app_nil_r.
    repeat split; discriminate.
  - rewrite query_frame. cbv zeta.
    destruct (dev (sent tr) command) as [raw|].
    + destruct (PyStr.startswith ERROR_SENTINEL (PyStr.strip raw)).
      * destruct roe.
        -- destruct (IH (tr ++ [Exchange command]) ERROR_CODE_QUERY true)
             as (r & ext & E & Hext & _).
           rewrite E, <- app_assoc.
           destruct r as [[code|x]|e]; eexists; eexists;
             (split; [reflexivity|]); simpl; (split; [exact Hext|]);
             discriminate.
        -- eexists; eexists; split; [reflexivity|]. split; [reflexivity|].
           discriminate.
      * eexists; eexists; split; [reflexivity|]. split; [reflexivity|].
        discriminate.
    + eexists; eexists; split; [reflexivity|]. split; [reflexivity|].
      discriminate.
Qed.

(** One unfolding of [query] on a response that begins with the
    sentinel, when errors are raised. *)
Lemma query_sentinel_step (depth : nat) tr command numeric raw :
  dev (sent tr) command = Reply raw ->
  PyStr.startswith ERROR_SENTINEL raw = true ->
  query (S depth) tr command numeric true =
  match query depth (tr ++ [Exchange command]) ERROR_CODE_QUERY false true with
  | (Ok (VStr code), tr2) =>
      (Raise (RuntimeError (error_message command code)), tr2)
  | (Ok (VFloat _), tr2) => (Raise TypeError, tr2)
  | (Raise e, tr2) => (Raise e, tr2)
  end.
Proof.
  intros Hdev Hraw. apply sentinel_seen in Hraw as [_ Hs].
  rewrite query_frame. cbv zeta. now rewrite Hdev, Hs.
Qed.


(** C9, as the code has it.  When errors are not to be raised and the
    response begins with the sentinel, [query] returns the response
    with the white space at its end stripped off and is otherwise done
    after that single exchange: no exception, no "ERROR:CODE?", no
    numeric conversion, whatever [numeric_result] is.  A response that
    ends in no white space comes back as it is. *)
Theorem query_error_not_raised (depth : nat) tr command numeric raw :
  dev (sent tr) command = Reply raw ->
  PyStr.startswith ERROR_SENTINEL raw = true ->
  query (S depth) tr command numeric false
  = (Ok (VStr (PyStr.rstrip raw)), tr ++ [Exchange command])
  /\ (PyStr.rstrip raw = raw ->
      query (S depth) tr command numeric false
      = (Ok (VStr raw), tr ++ [Exchange command])).
Proof.
  intros Hdev Hraw. apply sentinel_seen in Hraw as [Hstrip Hs].
  assert (E : query (S depth) tr command numeric false
              = (Ok (VStr (PyStr.rstrip raw)), tr ++ [Exchange command])).
  { rewrite query_frame. cbv zeta. now rewrite Hdev, Hs, Hstrip. }
  split; [exact E|]. intros Hsame. now rewrite E, Hsame.
Qed.

End Query.


(** C9, as stated, fails on a response that ends with a line feed: what
    comes back is not the response the instrument gave. *)
Lemma query_returns_stripped_response :
  dev_rejecting [] "MOTBI:WL?" = Reply ("!ERROR 12" ++ LF)
  /\ PyStr.startswith ERROR_SENTINEL ("!ERROR 12" ++ LF) = true
  /\ fst (Matisse.query Q no_float dev_rejecting 1 [] "MOTBI:WL?" true false)
     = Ok (VStr "!ERROR 12")
  /\ fst (Matisse.query Q no_float dev_rejecting 1 [] "MOTBI:WL?" true false)
     <> Ok (VStr ("!ERROR 12" ++ LF)).
Proof. repeat split. discriminate. Qed.

Lemma query_error_not_raised_witness :
  Matisse.query Q no_float dev_rejecting 1 [] "MOTBI:WL?" true false
  = (Ok (VStr "!ERROR 12"), [Exchange "MOTBI:WL?"]).
Proof.
  exact (proj1 (query_error_not_raised Q no_float dev_rejecting 0 [] "MOTBI:WL?" true
                  ("!ERROR 12" ++ LF) eq_refl eq_refl)).
Defined.

End MatisseFacts.

(** ** The lock supervisor *)

Module LockFacts.
Import LockCorrectionThread.

(** Unfolds the monadic code of one pass down to records and lists. *)
Ltac step_through :=
  unfold cycle, attempt_piezo_corrections, bind, qsize, ask, send, sleep,
    timer_cancel, print, log, ret, emit;
  cbv zeta; cbn [now timer messages trace fst snd].

(** Projections of records built on the way, and nested appends. *)
Ltac tidy :=
  cbn [now timer messages trace List.length Nat.eqb];
  rewrite <- ?app_assoc; cbn [app].

Section Cycle.
Variable w : world.

Lemma deliver_now (s : state) : now (deliver w s) = now s.
Proof. reflexivity. Qed.

Lemma deliver_trace (s : state) : trace (deliver w s) = trace s.
Proof. reflexivity. Qed.

(** An empty queue after delivery: nothing was there, nothing came,
    and the timer has not fired. *)
Lemma deliver_empty (s : state) :
  messages (deliver w s) = [] ->
  messages s = [] /\ puts_at w (now s) = [] /\ timer (deliver w s) = timer s.
Proof.
  unfold deliver; cbn [messages timer]. intros H.
  apply app_eq_nil in H as [H1 H]. apply app_eq_nil in H as [H2 H3].
  repeat split; trivial.
  destruct (match timer s with Armed => timer_due w (now s) | _ => false end);
    [discriminate | reflexivity].
Qed.

Lemma cycle_stop (s : state) :
  messages (deliver w s) <> [] ->
  cycle w s =
  (Ok (Break TimedOut),
   {| now := now s;
      timer := cancelled (timer (deliver w s));
      messages := messages (deliver w s);
      trace := trace s ++ [EvQsize (List.length (messages (deliver w s)));
                           EvTimerCancel] |}).
Proof.
  intros H. step_through.
  rewrite deliver_now, deliver_trace.
  destruct (messages (deliver w s)) as [|m q]; [congruence|].
  now tidy.
Qed.

Lemma cycle_idle (s : state) :
  messages (deliver w s) = [] ->
  locked_at w (now s) = Ok false ->
  limit_at w (now s) = Ok false ->
  cycle w s =
  (Ok Continue,
   {| now := now s + 1;
      timer := timer s;
      messages := [];
      trace := trace s ++ [EvQsize 0;
                           EvAsk fast_piezo_locked (Ok false);
                           EvAsk is_any_limit_reached (Ok false);
                           EvSleep 1] |}).
Proof.
  intros E Hlock Hlim. destruct (deliver_empty s E) as (_ & _ & Ht).
  step_through. rewrite deliver_now, deliver_trace, E, Ht.
  tidy. rewrite Hlock. tidy. rewrite Hlim. now tidy.
Qed.

Lemma cycle_limit_before_lock (s : state) :
  messages (deliver w s) = [] ->
  locked_at w (now s) = Ok false ->
  limit_at w (now s) = Ok true ->
  cycle w s =
  (Ok (Break LimitBeforeLock),
   {| now := now s;
      timer := cancelled (timer s);
      messages := [];
      trace := trace s ++ [EvQsize 0;
                           EvAsk fast_piezo_locked (Ok false);
                           EvAsk is_any_limit_reached (Ok true);
                           EvPrint WARN_UNLOCKED;
                           EvTimerCancel] |}).
Proof.
  intros E Hlock Hlim. destruct (deliver_empty s E) as (_ & _ & Ht).
  step_through. rewrite deliver_now, deliver_trace, E, Ht.
  tidy. rewrite Hlock. tidy. rewrite Hlim. now tidy.
Qed.

Lemma cycle_locked (s : state) :
  messages (deliver w s) = [] ->
  locked_at w (now s) = Ok true ->
  limit_at w (now s) = Ok false ->
  cycle w s =
  (Ok Continue,
   {| now := now s + 1;
      timer := cancelled (timer s);
      messages := [];
      trace := trace s ++ [EvQsize 0;
                           EvAsk fast_piezo_locked (Ok true);
                           EvTimerCancel;
                           EvAsk is_any_limit_reached (Ok false);
                           EvSleep 1] |}).
Proof.
  intros E Hlock Hlim. destruct (deliver_empty s E) as (_ & _ & Ht).
  step_through. rewrite deliver_now, deliver_trace, E, Ht.
  tidy. rewrite Hlock. tidy. rewrite Hlim. now tidy.
Qed.

Lemma cycle_locked_at_limit (s : state) :
  messages (deliver w s) = [] ->
  locked_at w (now s) = Ok true ->
  limit_at w (now s) = Ok true ->
  (forall c, send_at w (now s) c = Ok tt) ->
  cycle w s =
  (Ok Continue,
   {| now := now s + 1;
      timer := cancelled (timer s);
      messages := [];
      trace := trace s ++ [EvQsize 0;
                           EvAsk fast_piezo_locked (Ok true);
                           EvTimerCancel;
                           EvAsk is_any_limit_reached (Ok true);
                           EvPrint WARN_LOCKED;
                           EvSend (query "PIEZOETALON:BASELINE 0") (Ok tt);
                           EvSend (query "SLOWPIEZO:NOW 0.35") (Ok tt);
                           EvSend (set_refcell_pos "0.35") (Ok tt);
                           EvSleep 1] |}).
Proof.
  intros E Hlock Hlim Hsend. destruct (deliver_empty s E) as (_ & _ & Ht).
  step_through. rewrite deliver_now, deliver_trace, E, Ht.
  tidy. rewrite Hlock. tidy. rewrite Hlim. tidy. rewrite !Hsend. now tidy.
Qed.

(** Every oracle answer a pass can depend on, case by case. *)
Ltac oracle_cases :=
  repeat (tidy;
          match goal with
          | |- context [match locked_at ?w ?t with _ => _ end] =>
              destruct (locked_at w t) as [[|]|?]
          | |- context [match limit_at ?w ?t with _ => _ end] =>
              destruct (limit_at w t) as [[|]|?]
          | |- context [send_at ?w ?t ?c] =>
              destruct (send_at w t c) as [[]|?]
          end).

(** What one pass adds to the trace: it begins with the look at the
    queue, never calls [__exit__], and holds a failed instrument call
    exactly when the pass raised, as its last event. *)
Lemma cycle_frame (s : state) :
  forall r s', cycle w s = (r, s') ->
  exists rest,
    trace s' = trace s ++ EvQsize (List.length (messages (deliver w s))) :: rest
    /\ Forall (fun e => is_exit e = false) rest
    /\ match r with
       | Ok _ => Forall (fun e => raised e = None) rest
       | Raise x =>
           exists pre ev, rest = pre ++ [ev] /\ raised ev = Some x
                          /\ Forall (fun e => raised e = None) pre
       end.
Proof.
  intros r s'. step_through. rewrite deliver_now, deliver_trace.
  destruct (messages (deliver w s)) as [|m q]; oracle_cases; tidy;
    intros [= <- <-]; tidy;
    (eexists; split; [reflexivity|]; split; [repeat constructor|]);
    try (repeat constructor; fail);
    match goal with
    | |- exists pre ev, ?l = _ /\ _ =>
        exists (removelast l), (last l EvTimerStart);
        repeat split; repeat constructor
    end.
Qed.

(** The loop has no third way out. *)
Lemma cycle_break (s : state) :
  forall t s', cycle w s = (Ok (Break t), s') -> t <> Locked.
Proof.
  intros t s'. step_through.
  destruct (messages (deliver w s)) as [|m q]; oracle_cases; tidy;
    intros [= <- _]; discriminate.
Qed.

Lemma deliver_inbox (s : state) :
  messages s = [] -> timer s = Armed ->
  messages (deliver w s) = inbox w (now s).
Proof.
  intros Hm Ht. unfold deliver, inbox. cbn [messages].
  now rewrite Hm, Ht.
Qed.

Lemma deliver_unarmed (s : state) :
  messages s = [] -> timer s <> Armed -> puts_at w (now s) = [] ->
  messages (deliver w s) = [].
Proof.
  intros Hm Ht Hp. unfold deliver. cbn [messages]. rewrite Hm, Hp.
  now destruct (timer s).
Qed.

(** *** The loop *)

Lemma loop_step (fuel : nat) (s : state) :
  loop w (S fuel) s =
  match cycle w s with
  | (Ok Continue, s') => loop w fuel s'
  | (Ok (Break t), s') => Some (Ok t, s')
  | (Raise e, s') => Some (Raise e, s')
  end.
Proof. reflexivity. Qed.

(** More fuel does not change a loop that has ended. *)
Lemma loop_more (fuel : nat) :
  forall s x, loop w fuel s = Some x ->
  forall fuel', fuel <= fuel' -> loop w fuel' s = Some x.
Proof.
  induction fuel as [|fuel IH]; intros s x H fuel' Hle; [discriminate|].
  destruct fuel' as [|fuel']; [lia|].
  rewrite loop_step in *.
  destruct (cycle w s) as [[[|t]|e] s1]; trivial.
  apply IH; [assumption | lia].
Qed.

Lemma loop_frame (fuel : nat) :
  forall s r s', loop w fuel s = Some (r, s') ->
  exists ext,
    trace s' = trace s ++ ext
    /\ Forall (fun e => is_exit e = false) ext
    /\ match r with
       | Ok t => t <> Locked /\ Forall (fun e => raised e = None) ext
       | Raise x =>
           exists pre ev, ext = pre ++ [ev] /\ raised ev = Some x
                          /\ Forall (fun e => raised e = None) pre
       end.
Proof.
  induction fuel as [|fuel IH]; intros s r s' H; [discriminate|].
  rewrite loop_step in H.
  destruct (cycle w s) as [[[|t]|e] s1] eqn:C;
    destruct (cycle_frame s _ _ C) as (rest & Htr & Hex & Hr).
  - destruct (IH _ _ _ H) as (ext & Htr' & Hex' & Hr').
    exists ((EvQsize (List.length (messages (deliver w s))) :: rest) ++ ext).
    rewrite Htr', Htr, <- app_assoc. split; [reflexivity|].
    split; [apply Forall_app; split; [constructor|]; trivial|].
    destruct r as [t|x].
    + destruct Hr' as [Ht Hr']. split; [exact Ht|].
      apply Forall_app; split; [constructor|]; trivial.
    + destruct Hr' as (pre & ev & -> & Hev & Hpre).
      exists ((EvQsize (List.length (messages (deliver w s))) :: rest) ++ pre), ev.
      rewrite <- app_assoc. repeat split; trivial.
      apply Forall_app; split; [constructor|]; trivial.
  - injection H as <- <-. eexists; split; [exact Htr|].
    split; [constructor; trivial|].
    split; [exact (cycle_break s _ _ C)|]. constructor; trivial.
  - injection H as <- <-. eexists; split; [exact Htr|].
    split; [constructor; trivial|].
    destruct Hr as (pre & ev & -> & Hev & Hpre).
    exists (EvQsize (List.length (messages (deliver w s))) :: pre), ev.
    repeat split; trivial. constructor; trivial.
Qed.

(** [k] idle passes in a row: the queue stays empty, the timer armed. *)
Lemma loop_idle (k : nat) :
  forall s,
    messages s = [] -> timer s = Armed ->
    (forall t, now s <= t < now s + k ->
               inbox w t = [] /\ locked_at w t = Ok false
               /\ limit_at w t = Ok false) ->
    forall fuel,
      loop w (k + fuel) s =
      loop w fuel {| now := now s + k; timer := Armed; messages := [];
                     trace := trace s ++ List.concat (repeat idle_pass k) |}.
Proof.
  induction k as [|k IH]; intros s Hm Ht H fuel.
  - cbn [repeat List.concat Nat.add]. rewrite app_nil_r, Nat.add_0_r.
    destruct s; cbn in *; now subst.
  - destruct (H (now s)) as (Hin & Hlock & Hlim); [lia|].
    cbn [Nat.add]. rewrite loop_step, cycle_idle; trivial;
      [|now rewrite deliver_inbox].
    rewrite IH; cbn [now timer messages trace]; trivial.
    + replace (now s + 1 + k) with (now s + S k) by lia.
      cbn [repeat List.concat]. now rewrite <- app_assoc.
    + intros t Hlt. apply H. lia.
Qed.

Lemma run_entered (fuel : nat) :
  enter w = Ok tt ->
  run w fuel =
  match loop w fuel started with
  | None => None
  | Some (body, s) => Some (leave w body s)
  end.
Proof. intros H. unfold run. now rewrite H. Qed.

(** No run ends in [Locked]. *)
Lemma run_never_locked (fuel : nat) r s :
  run w fuel = Some (r, s) -> r <> Ok (Ended Locked).
Proof.
  unfold run. destruct (enter w) as [u|e].
  - destruct (loop w fuel started) as [[body s1]|] eqn:L; [|discriminate].
    destruct (loop_frame _ _ _ _ L) as (ext & _ & _ & Hb).
    unfold leave. destruct body as [t|x].
    + destruct Hb as [Ht _].
      destruct (exit_ w None); intros [= <- _]; congruence.
    + destruct (exit_ w (Some x)) as [[|]|]; intros [= <- _]; discriminate.
  - intros [= <- _]. discriminate.
Qed.

(** C4.  Every pass begins with the look at the queue, before any call
    on the instrument; and when the queue holds a message, whatever it
    says, the pass cancels the timer and breaks out of the loop: it
    adds nothing else to the trace, so no instrument call, and leaves
    the clock and the queue as they are. *)
Theorem stop_message_preempts_polling (s : state) :
  (exists r s' rest,
      cycle w s = (r, s')
      /\ trace s' = trace s ++ EvQsize (List.length (messages (deliver w s))) :: rest)
  /\ (messages (deliver w s) <> [] ->
      exists s',
        cycle w s = (Ok (Break TimedOut), s')
        /\ trace s' = trace s ++ [EvQsize (List.length (messages (deliver w s)));
                                  EvTimerCancel]
        /\ now s' = now s
        /\ messages s' = messages (deliver w s)
        /\ timer s' = cancelled (timer (deliver w s))
        /\ forall fuel, loop w (S fuel) s = Some (Ok TimedOut, s')).
Proof.
  split.
  - destruct (cycle w s) as [r s'] eqn:C.
    destruct (cycle_frame s r s' C) as (rest & Htr & _).
    now exists r, s', rest.
  - intros H. eexists. split; [apply cycle_stop, H|].
    repeat split. intros fuel. now rewrite loop_step, cycle_stop.
Qed.

(** Once the timer is out of the way, a laser that stays locked with no
    limit reached keeps the loop going for ever, unless another thread
    writes to the queue. *)
Lemma loop_locked_for_ever (fuel : nat) :
  forall s,
    messages s = [] -> timer s <> Armed ->
    (forall t, now s <= t ->
               puts_at w t = [] /\ locked_at w t = Ok true
               /\ limit_at w t = Ok false) ->
    loop w fuel s = None.
Proof.
  induction fuel as [|fuel IH]; intros s Hm Ht H; [reflexivity|].
  destruct (H (now s)) as (Hp & Hlock & Hlim); [lia|].
  rewrite loop_step, cycle_locked; trivial; [|now apply deliver_unarmed].
  apply IH; cbn [messages timer now]; trivial.
  - now destruct (timer s).
  - intros t Hle. apply H. lia.
Qed.

(** [j] passes in a row that find the laser locked and no limit reached,
    the timer being cancelled already. *)
Lemma loop_locked (j : nat) :
  forall s,
    messages s = [] -> timer s = Cancelled ->
    (forall t, now s <= t < now s + j ->
               puts_at w t = [] /\ locked_at w t = Ok true
               /\ limit_at w t = Ok false) ->
    forall fuel,
      loop w (j + fuel) s =
      loop w fuel {| now := now s + j; timer := Cancelled; messages := [];
                     trace := trace s ++ List.concat (repeat locked_pass j) |}.
Proof.
  induction j as [|j IH]; intros s Hm Ht H fuel.
  - cbn [repeat List.concat Nat.add]. rewrite app_nil_r, Nat.add_0_r.
    destruct s; cbn in *; now subst.
  - destruct (H (now s)) as (Hp & Hlock & Hlim); [lia|].
    cbn [Nat.add]. rewrite loop_step, cycle_locked; trivial;
      [|apply deliver_unarmed; trivial; rewrite Ht; discriminate].
    rewrite IH; cbn [now timer messages trace]; trivial.
    + replace (now s + 1 + j) with (now s + S j) by lia.
      cbn [repeat List.concat]. now rewrite <- app_assoc.
    + now rewrite Ht.
    + intros t Hlt. apply H. lia.
Qed.

Lemma sends_app (a b : list event) : sends (a ++ b) = sends a ++ sends b.
Proof. apply flat_map_app. Qed.

Lemma sends_repeat (p : list event) (n : nat) :
  sends p = [] -> sends (List.concat (repeat p n)) = [].
Proof.
  intros Hp. induction n as [|n IH]; [reflexivity|].
  cbn [repeat List.concat]. now rewrite sends_app, Hp, IH.
Qed.

(** The passes up to the first one that finds the lock: [k] idle ones,
    then the one in which the timer is cancelled. *)
Lemma loop_first_lock (k : nat) :
  (forall t, t < k -> inbox w t = [] /\ locked_at w t = Ok false
                       /\ limit_at w t = Ok false) ->
  inbox w k = [] ->
  locked_at w k = Ok true ->
  limit_at w k = Ok false ->
  forall fuel,
    loop w (k + S fuel) started =
    loop w fuel {| now := k + 1; timer := Cancelled; messages := [];
                   trace := trace started ++ List.concat (repeat idle_pass k)
                              ++ locked_pass |}.
Proof.
  intros Hidle Hin Hlock Hlim fuel.
  rewrite (loop_idle k started eq_refl eq_refl)
    by (intros t Ht; apply Hidle; change (now started) with 0 in Ht; lia).
  change (now started + k) with k.
  now rewrite loop_step, cycle_locked.
Qed.

(** A run in which the laser locks at time [k] and stays locked, with no
    limit reached and no message in the queue, never leaves the loop. *)
Lemma loop_never_ends_once_locked (k : nat) :
  (forall t, t < k -> inbox w t = [] /\ locked_at w t = Ok false
                       /\ limit_at w t = Ok false) ->
  inbox w k = [] ->
  (forall t, k <= t -> puts_at w t = [] /\ locked_at w t = Ok true
                        /\ limit_at w t = Ok false) ->
  forall fuel, loop w fuel started = None.
Proof.
  intros Hidle Hin Hlocked fuel.
  destruct (Hlocked k) as (_ & Hlock & Hlim); [lia|].
  destruct (loop w fuel started) as [x|] eqn:L; [|reflexivity].
  apply loop_more with (fuel' := k + S fuel) in L; [|lia].
  rewrite loop_first_lock in L by trivial.
  rewrite loop_locked_for_ever in L;
    [discriminate | reflexivity | discriminate |].
  cbn [now]. intros t Ht. apply Hlocked. lia.
Qed.

(** C1, as the code has it.  In a run in which the instrument reports the
    fast piezo locked from some pass on and no limit is reached (and no
    message reaches the queue), the supervisor cancels the timer in every
    such pass, sends no correction command, sleeps a second and polls
    again: after the [j+1]st of these passes the trace is the idle passes
    followed by [j+1] locked ones.  Being locked does not end the loop,
    and the run goes on for ever. *)
Theorem locked_without_limit_polls_on (k j : nat) :
  enter w = Ok tt ->
  (forall t, t < k -> inbox w t = [] /\ locked_at w t = Ok false
                       /\ limit_at w t = Ok false) ->
  inbox w k = [] ->
  (forall t, k <= t -> puts_at w t = [] /\ locked_at w t = Ok true
                        /\ limit_at w t = Ok false) ->
  (exists s,
      (forall fuel, loop w (k + S j + fuel) started = loop w fuel s)
      /\ trace s = trace started ++ List.concat (repeat idle_pass k)
                    ++ List.concat (repeat locked_pass (S j))
      /\ timer s = Cancelled
      /\ now s = k + S j
      /\ messages s = []
      /\ sends (trace s) = [])
  /\ (forall fuel, loop w fuel started = None)
  /\ (forall fuel, run w fuel = None).
Proof.
  intros Hen Hidle Hin Hlocked.
  destruct (Hlocked k) as (_ & Hlock & Hlim); [lia|].
  pose proof (loop_never_ends_once_locked k Hidle Hin Hlocked) as Hnone.
  split; [|split; [exact Hnone|]].
  - pose (s1 := {| now := k + 1; timer := Cancelled; messages := [];
                   trace := trace started ++ List.concat (repeat idle_pass k)
                              ++ locked_pass |}).
    exists {| now := now s1 + j; timer := Cancelled; messages := [];
              trace := trace s1 ++ List.concat (repeat locked_pass j) |}.
    split; [|split; [|split; [|split; [|split]]]]; cbn [now timer messages trace s1].
    + intros fuel.
      replace (k + S j + fuel) with (k + S (j + fuel)) by lia.
      rewrite loop_first_lock by trivial. fold s1.
      apply (loop_locked j s1); trivial.
      cbn [now s1]. intros t Ht. apply Hlocked. lia.
    + cbn [repeat List.concat]. now rewrite <- !app_assoc.
    + reflexivity.
    + lia.
    + reflexivity.
    + rewrite !sends_app, !sends_repeat by reflexivity. reflexivity.
  - intros fuel. rewrite run_entered by trivial. now rewrite Hnone.
Qed.

(** C3.  When a limit is reached while the laser has not locked yet --
    up to time [n] no message reaches the queue, the passes before [n]
    find neither lock nor limit, and the pass at [n] finds a limit and
    no lock -- the supervisor cancels the timer and leaves the loop by
    the [LimitBeforeLock] break in that very pass, at time [n], without
    sleeping or waiting for the timer; and a run never ends in
    [Locked]. *)
Theorem limit_before_lock_stops_at_once (n : nat) :
  enter w = Ok tt ->
  (forall t, t <= n -> inbox w t = []) ->
  (forall t, t < n -> locked_at w t = Ok false /\ limit_at w t = Ok false) ->
  locked_at w n = Ok false ->
  limit_at w n = Ok true ->
  exists s,
    (forall fuel, n < fuel ->
                  loop w fuel started = Some (Ok LimitBeforeLock, s)
                  /\ run w fuel = Some (leave w (Ok LimitBeforeLock) s))
    /\ now s = n
    /\ timer s = Cancelled
    /\ trace s = trace started ++ List.concat (repeat idle_pass n)
                  ++ [EvQsize 0;
                      EvAsk fast_piezo_locked (Ok false);
                      EvAsk is_any_limit_reached (Ok true);
                      EvPrint WARN_UNLOCKED;
                      EvTimerCancel]
    /\ (forall fuel r s', run w fuel = Some (r, s') -> r <> Ok (Ended Locked)).
Proof.
  intros Hen Hin Hidle Hlock Hlim.
  pose (s0 := {| now := 0 + n; timer := Armed; messages := [];
                 trace := trace started ++ List.concat (repeat idle_pass n) |}).
  assert (Hloop : forall fuel, loop w (n + fuel) started = loop w fuel s0).
  { intros fuel. apply (loop_idle n started); trivial.
    cbn [now started]. intros t Ht.
    destruct (Hidle t) as [? ?]; [cbn in Ht; lia|].
    repeat split; trivial. apply Hin. cbn in Ht. lia. }
  assert (Hempty : messages (deliver w s0) = []).
  { rewrite deliver_inbox by reflexivity. apply Hin. cbn. lia. }
  pose proof (cycle_limit_before_lock s0 Hempty Hlock Hlim) as C.
  match type of C with _ = (_, ?x) => set (s1 := x) in C end.
  exists s1. split; [|split; [|split; [|split]]].
  - intros fuel Hfuel.
    assert (L : loop w fuel started = Some (Ok LimitBeforeLock, s1)).
    { replace fuel with (n + S (fuel - S n)) by lia.
      rewrite Hloop, loop_step, C. reflexivity. }
    split; [exact L|]. now rewrite run_entered, L.
  - reflexivity.
  - reflexivity.
  - cbn [trace s0 s1]. now rewrite <- app_assoc.
  - intros fuel r s'. apply run_never_locked.
Qed.

(** *** The timer *)

(** The first whole second after the timeout. *)
(** C8.  Once the [with] block is entered, every way the run can end
    has called [__exit__] exactly once, as the last thing it did:
    after either [break], or with the exception in flight.  An
    instrument call that raised is the last event before that call of
    [__exit__], which receives its exception: nothing in [run] catches
    it or tries again, and the run does not end in a terminal state of
    the loop. *)
Theorem cleanup_runs_on_every_exit (fuel : nat) r s :
  enter w = Ok tt ->
  run w fuel = Some (r, s) ->
  exists pre exc,
    trace s = pre ++ [EvExit exc]
    /\ Forall (fun e => is_exit e = false) pre
    /\ (forall t, r = Ok (Ended t) ->
                  exc = None /\ Forall (fun e => raised e = None) pre)
    /\ (forall ev e, In ev (trace s) -> raised ev = Some e ->
                     exc = Some e
                     /\ (exists pre', pre = pre' ++ [ev]
                                      /\ Forall (fun e' => raised e' = None) pre')
                     /\ forall t, r <> Ok (Ended t)).
Proof.
  intros Hen. rewrite run_entered by trivial.
  destruct (loop w fuel started) as [[body s1]|] eqn:L; [|discriminate].
  destruct (loop_frame _ _ _ _ L) as (ext & Htr & Hex & Hb).
  assert (Hstart : Forall (fun e => raised e = None) (trace started))
    by (repeat constructor).
  assert (Hpre : Forall (fun e => is_exit e = false) (trace s1)).
  { rewrite Htr. apply Forall_app. split; [repeat constructor | exact Hex]. }
  unfold leave. destruct body as [t|x].
  - destruct Hb as [_ Hb].
    assert (Hclean : Forall (fun e => raised e = None) (trace s1)).
    { rewrite Htr. apply Forall_app. now split. }
    intros Hr. exists (trace s1), None.
    assert (Hs : trace s = trace s1 ++ [EvExit None])
      by (destruct (exit_ w None); injection Hr as _ <-; reflexivity).
    split; [exact Hs|]. split; [exact Hpre|].
    split; [intros t' _; now split|].
    intros ev e Hin Hraised. exfalso.
    rewrite Hs in Hin. apply in_app_or in Hin as [Hin|[<-|[]]].
    + rewrite Forall_forall in Hclean.
      rewrite (Hclean _ Hin) in Hraised. discriminate.
    + discriminate.
  - destruct Hb as (pre & ev0 & -> & Hev0 & Hclean).
    intros Hr. exists (trace s1), (Some x).
    assert (Hs : trace s = trace s1 ++ [EvExit (Some x)])
      by (destruct (exit_ w (Some x)) as [[|]|]; injection Hr as _ <-;
          reflexivity).
    assert (Hres : forall t, r <> Ok (Ended t))
      by (destruct (exit_ w (Some x)) as [[|]|]; injection Hr as <- _;
          discriminate).
    split; [exact Hs|]. split; [exact Hpre|].
    split; [intros t Ht; now destruct (Hres t)|].
    intros ev e Hin Hraised.
    assert (ev = ev0 /\ e = x) as [-> ->].
    { rewrite Hs, Htr in Hin.
      rewrite !in_app_iff in Hin. cbn [In] in Hin.
      rewrite Forall_forall in Hstart, Hclean.
      destruct Hin as [[Hin|[Hin|[Hin|[]]]]|[Hin|[]]].
      - rewrite (Hstart _ Hin) in Hraised. discriminate.
      - rewrite (Hclean _ Hin) in Hraised. discriminate.
      - subst ev. split; congruence.
      - subst ev. discriminate. }
    split; [reflexivity|]. split; [|exact Hres].
    exists (trace started ++ pre). rewrite Htr, app_assoc.
    split; [reflexivity|]. apply Forall_app. now split.
Qed.

(** *** Corrections over a whole run *)

Section Calm.

Variables locked limit : nat -> bool.
Hypothesis locked_ok : forall t, locked_at w t = Ok (locked t).
Hypothesis limit_ok : forall t, limit_at w t = Ok (limit t).
Hypothesis send_ok : forall t c, send_at w t c = Ok tt.

Abbreviation due := (corrections_due locked limit).

Lemma cycle_sends (s : state) r s' :
  cycle w s = (r, s') ->
  (r = Ok Continue /\ now s' = now s + 1
   /\ sends (trace s') = sends (trace s) ++ due (now s))
  \/ (exists t, r = Ok (Break t)) /\ now s' = now s
     /\ sends (trace s') = sends (trace s).
Proof.
  unfold corrections_due, sends.
  destruct (messages (deliver w s)) as [|m q] eqn:E.
  - pose proof (locked_ok (now s)) as Hlock.
    pose proof (limit_ok (now s)) as Hlim.
    destruct (locked (now s)), (limit (now s)); cbn [andb].
    + rewrite cycle_locked_at_limit by trivial.
      intros [= <- <-]. left. cbn [now trace].
      now rewrite flat_map_app.
    + rewrite cycle_locked by trivial.
      intros [= <- <-]. left. cbn [now trace].
      now rewrite flat_map_app.
    + rewrite cycle_limit_before_lock by trivial.
      intros [= <- <-]. right. cbn [now trace].
      rewrite flat_map_app. cbn. rewrite app_nil_r. eauto.
    + rewrite cycle_idle by trivial.
      intros [= <- <-]. left. cbn [now trace].
      now rewrite flat_map_app.
  - rewrite cycle_stop by (rewrite E; discriminate).
    intros [= <- <-]. right. cbn [now trace].
    rewrite flat_map_app. cbn. rewrite app_nil_r. eauto.
Qed.

(** When no call fails, a run has sent the three commands once for
    every pass that went through with the laser locked and a limit
    reached, and nothing else. *)
Lemma corrections_once_per_pass (fuel : nat) :
  forall s r s',
    loop w fuel s = Some (r, s') ->
    now s <= now s'
    /\ sends (trace s')
       = sends (trace s) ++ flat_map due (seq (now s) (now s' - now s)).
Proof.
  induction fuel as [|fuel IH]; intros s r s' H; [discriminate|].
  rewrite loop_step in H.
  destruct (cycle w s) as [r1 s1] eqn:C.
  destruct (cycle_sends s r1 s1 C)
    as [(-> & Hnow & Hs)|((t & ->) & Hnow & Hs)].
  - destruct (IH _ _ _ H) as [Hle Hs']. split; [lia|].
    rewrite Hs', Hs, Hnow, <- app_assoc. f_equal.
    replace (now s' - now s) with (S (now s' - (now s + 1))) by lia.
    cbn [seq flat_map]. now rewrite Nat.add_1_r.
  - injection H as <- <-. rewrite Hnow, Nat.sub_diag. cbn.
    rewrite app_nil_r. split; [lia | exact Hs].
Qed.

(** C2, as the code has it.  In a run in which no instrument call fails,
    every pass that finds the queue empty, the fast piezo locked and a
    limit reached cancels the timer and sends the three correction
    commands once, in the order piezo-etalon baseline, slow-piezo
    position, reference-cell position; the supervisor then sleeps a second
    and polls again.  So over a run the sequence has been sent once for
    each such pass, and the loop does not end in [Locked]. *)
Theorem locked_at_limit_corrects_each_pass :
  (forall s,
      messages (deliver w s) = [] ->
      locked (now s) = true ->
      limit (now s) = true ->
      exists s',
        cycle w s = (Ok Continue, s')
        /\ trace s' = trace s ++ correcting_pass
        /\ sends (trace s') = sends (trace s) ++ correction_commands
        /\ timer s' = cancelled (timer s)
        /\ now s' = now s + 1)
  /\ (forall fuel r s',
         loop w fuel started = Some (r, s') ->
         sends (trace s') = flat_map due (seq 0 (now s'))
         /\ r <> Ok Locked).
Proof.
  split.
  - intros s E Hlock Hlim.
    pose proof (locked_ok (now s)) as Hl. rewrite Hlock in Hl.
    pose proof (limit_ok (now s)) as Hm. rewrite Hlim in Hm.
    eexists. split; [apply cycle_locked_at_limit; trivial|].
    cbn [trace timer now]. repeat split. apply sends_app.
  - intros fuel r s' L.
    destruct (corrections_once_per_pass fuel started r s' L) as [_ Hs].
    change (now started) with 0 in Hs. rewrite Nat.sub_0_r in Hs.
    split; [exact Hs|].
    destruct (loop_frame _ _ _ _ L) as (ext & _ & _ & Hr).
    destruct r as [t|x]; [|discriminate].
    destruct Hr as [Ht _]. congruence.
Qed.

End Calm.

End Cycle.

(** *** The scenarios of the design document *)

(** Scenario A: the run ends by the timer's message at t = 5. *)
Example scenario_A_times_out :
  report (run scenario_A 6) = Some (Ok (Ended TimedOut), 5, ["stop"], []).
Proof. vm_compute. reflexivity. Qed.

(** Scenario D: the run ends at t = 2, without waiting for the timer. *)
Example scenario_D_stops_at_limit :
  report (run scenario_D 3) = Some (Ok (Ended LimitBeforeLock), 2, [], []).
Proof. vm_compute. reflexivity. Qed.

(** A failing limit query ends the run at once, through [__exit__]. *)
Example link_drops_run :
  option_map (fun x => (fst x, trace (snd x))) (run link_drops 2)
  = Some (Raise VisaIOError,
          trace started ++ idle_pass
            ++ [EvQsize 0;
                EvAsk fast_piezo_locked (Ok false);
                EvAsk is_any_limit_reached (Raise VisaIOError);
                EvExit (Some VisaIOError)]).
Proof. vm_compute. reflexivity. Qed.

Lemma stop_message_preempts_polling_witness :
  let s := {| now := 2; timer := Cancelled; messages := []; trace := [] |} in
  messages (deliver limit_persists s) = ["halt"]
  /\ exists s',
      cycle limit_persists s = (Ok (Break TimedOut), s')
      /\ trace s' = [EvQsize 1; EvTimerCancel].
Proof.
  intros s. split; [reflexivity|].
  destruct (proj2 (stop_message_preempts_polling limit_persists s))
    as (s' & C & Htr & _); [discriminate|].
  exists s'. split; [exact C | exact Htr].
Defined.

Lemma scenario_B_quiet_start (t : nat) :
  t < 3 ->
  inbox scenario_B t = [] /\ locked_at scenario_B t = Ok false
  /\ limit_at scenario_B t = Ok false.
Proof.
  intros H. do 3 (destruct t as [|t]; [repeat split|]). lia.
Qed.

Lemma scenario_B_locked (t : nat) :
  3 <= t ->
  puts_at scenario_B t = [] /\ locked_at scenario_B t = Ok true
  /\ limit_at scenario_B t = Ok false.
Proof.
  intros H. repeat split.
  change (Ok (3 <=? t) = Ok true). f_equal. now apply Nat.leb_le.
Qed.

(** C1, as stated, fails in scenario B: the instrument reports the lock
    from t = 3 on and no limit is ever reached, yet the run never ends. *)
Lemma locked_run_never_ends :
  (forall t, 3 <= t -> locked_at scenario_B t = Ok true)
  /\ (forall t, limit_at scenario_B t = Ok false)
  /\ ~ (exists fuel x, run scenario_B fuel = Some x).
Proof.
  split; [|split].
  - intros t Ht. now apply scenario_B_locked.
  - reflexivity.
  - intros (fuel & x & H). rewrite run_entered in H by reflexivity.
    rewrite (loop_never_ends_once_locked scenario_B 3 scenario_B_quiet_start
               eq_refl scenario_B_locked) in H.
    discriminate.
Qed.

Lemma locked_without_limit_polls_on_witness :
  (exists s,
      (forall fuel, loop scenario_B (3 + 2 + fuel) started = loop scenario_B fuel s)
      /\ trace s = trace started ++ List.concat (repeat idle_pass 3)
                    ++ List.concat (repeat locked_pass 2)
      /\ timer s = Cancelled
      /\ now s = 3 + 2
      /\ messages s = []
      /\ sends (trace s) = [])
  /\ (forall fuel, loop scenario_B fuel started = None)
  /\ (forall fuel, run scenario_B fuel = None).
Proof.
  exact (locked_without_limit_polls_on scenario_B 3 1 eq_refl
           scenario_B_quiet_start eq_refl scenario_B_locked).
Defined.

(** C2, as stated, fails when the limit is still reached at the next
    pass: the three commands are sent twice, and the run ends later by
    the message of another thread. *)
Lemma corrections_sent_twice :
  locked_at limit_persists 0 = Ok true
  /\ limit_at limit_persists 0 = Ok true
  /\ report (run limit_persists 3)
     = Some (Ok (Ended TimedOut), 2, ["halt"],
             correction_commands ++ correction_commands)
  /\ correction_commands ++ correction_commands <> correction_commands.
Proof.
  split; [reflexivity|]. split; [reflexivity|].
  split; [vm_compute; reflexivity | discriminate].
Qed.

Lemma locked_at_limit_corrects_each_pass_witness :
  exists s',
    cycle limit_persists started = (Ok Continue, s')
    /\ trace s' = trace started ++ correcting_pass
    /\ sends (trace s') = sends (trace started) ++ correction_commands
    /\ timer s' = cancelled (timer started)
    /\ now s' = now started + 1.
Proof.
  exact (proj1 (locked_at_limit_corrects_each_pass limit_persists
                  (fun _ => true) (fun _ => true)
                  (fun _ => eq_refl) (fun _ => eq_refl) (fun _ _ => eq_refl))
           started eq_refl eq_refl eq_refl).
Defined.

Lemma scenario_D_quiet (t : nat) : t <= 2 -> inbox scenario_D t = [].
Proof. intros H. do 3 (destruct t as [|t]; [reflexivity|]). lia. Qed.

Lemma scenario_D_idle (t : nat) :
  t < 2 -> locked_at scenario_D t = Ok false /\ limit_at scenario_D t = Ok false.
Proof. intros H. do 2 (destruct t as [|t]; [split; reflexivity|]). lia. Qed.

Lemma limit_before_lock_stops_at_once_witness :
  exists s,
    run scenario_D 3 = Some (leave scenario_D (Ok LimitBeforeLock) s)
    /\ now s = 2 /\ timer s = Cancelled.
Proof.
  destruct (limit_before_lock_stops_at_once scenario_D 2 eq_refl
              scenario_D_quiet scenario_D_idle eq_refl eq_refl)
    as (s & Hrun & Hn & Ht & _).
  exists s. split; [apply (Hrun 3); lia|]. split; assumption.
Defined.

Lemma cleanup_runs_on_every_exit_witness :
  exists s pre,
    run link_drops 2 = Some (Raise VisaIOError, s)
    /\ trace s = pre ++ [EvExit (Some VisaIOError)]
    /\ Forall (fun e => is_exit e = false) pre.
Proof.
  destruct (run link_drops 2) as [[r s]|] eqn:R; [|discriminate].
  assert (Hr : r = Raise VisaIOError) by (injection R as <- _; reflexivity).
  destruct (cleanup_runs_on_every_exit link_drops 2 r s eq_refl R)
    as (pre & exc & Htr & Hpre & _ & Herr).
  destruct (Herr (EvAsk is_any_limit_reached (Raise VisaIOError)) VisaIOError)
    as (-> & _); [injection R as _ <-; cbn; tauto | reflexivity |].
  exists s, pre. subst r. repeat split; assumption.
Defined.

End LockFacts.

(** ** The lock supervisor on a wall clock *)

Module WallClockFacts.
Import LockCorrectionThread WallClock.

Lemma due_after (w : world) (t : Q) : (timeout w < t)%Q -> due w t = true.
Proof.
  intros H. unfold due. destruct (timer_wins_tie w).
  - apply Qle_bool_iff. now apply Qlt_le_weak.
  - apply negb_true_iff, not_true_is_false. intros Hb.
    apply Qle_bool_iff in Hb. now apply Qle_not_lt in Hb.
Qed.

Lemma due_not_before (w : world) (t : Q) : due w t = true -> (timeout w <= t)%Q.
Proof.
  unfold due. destruct (timer_wins_tie w); intros H.
  - now apply Qle_bool_iff.
  - apply negb_true_iff in H. apply Qlt_le_weak, Qnot_le_lt.
    intros Hle. apply Qle_bool_iff in Hle. congruence.
Qed.

Lemma not_due_yet (w : world) (t : Q) : due w t = false -> (t <= timeout w)%Q.
Proof.
  intros H. apply Qnot_lt_le. intros Hlt. apply due_after in Hlt. congruence.
Qed.

Lemma due_later (w : world) (t t' : Q) :
  (t <= t')%Q -> due w t = true -> due w t' = true.
Proof.
  unfold due. destruct (timer_wins_tie w); intros Hle H.
  - apply Qle_bool_iff. apply Qle_bool_iff in H. now apply Qle_trans with t.
  - apply negb_true_iff in H. apply negb_true_iff, not_true_is_false.
    intros Hb. apply Qle_bool_iff in Hb.
    assert (Hc : Qle_bool t (timeout w) = true)
      by (apply Qle_bool_iff; now apply Qle_trans with t').
    congruence.
Qed.

(** A timer that has not been cancelled is armed or has fired according
    to the clock, and stays so as time goes by. *)
Lemma settle_later (w : world) (t t' : Q) :
  (t <= t')%Q -> settle w t' (settle w t Armed) = settle w t' Armed.
Proof.
  intros Hle. cbn [settle]. destruct (due w t) eqn:D; [|reflexivity].
  now rewrite (due_later w t t' Hle D).
Qed.

Lemma seconds_pos (n : nat) : (0 <= inject_Z (Z.of_nat n))%Q.
Proof. change 0%Q with (inject_Z 0). rewrite <- Zle_Qle. lia. Qed.

Section Thread.

Variable w : world.

Lemma clock_loop_step (fuel : nat) (s : state) :
  loop w (S fuel) s =
  match cycle w s with
  | (Ok Continue, s') => loop w fuel s'
  | (Ok (Break t), s') => Some (Ok t, s')
  | (Raise e, s') => Some (Raise e, s')
  end.
Proof. reflexivity. Qed.

(** More fuel does not change the end of a loop that has ended. *)
Lemma clock_loop_more (fuel : nat) :
  forall s x fuel',
    loop w fuel s = Some x -> fuel <= fuel' -> loop w fuel' s = Some x.
Proof.
  induction fuel as [|fuel IH]; intros s x fuel' H Hle; [discriminate|].
  destruct fuel' as [|fuel']; [lia|].
  rewrite clock_loop_step in *.
  destruct (cycle w s) as [[[|t]|e] s1]; trivial.
  apply IH; [exact H | lia].
Qed.

(** The pass that finds a message, and the pass that finds none on a
    laser that is neither locked nor at a limit. *)
Lemma pass_stop (s : state) :
  let s1 := snd (take w Look s) in
  put_by w (clock s1) + match timer s1 with Fired => 1 | _ => 0 end <> 0 ->
  cycle w s = (Ok (Break TimedOut), snd (timer_cancel w s1)).
Proof.
  cbv zeta. intros Hn. apply Nat.eqb_neq in Hn.
  cbv beta iota zeta delta [cycle bind qsize take snd] in Hn |- *.
  rewrite Hn. reflexivity.
Qed.

Lemma pass_idle (s : state) :
  let s1 := snd (take w Look s) in
  let s2 := snd (take w (Ask fast_piezo_locked) s1) in
  let s3 := snd (take w (Ask is_any_limit_reached) s2) in
  put_by w (clock s1) + match timer s1 with Fired => 1 | _ => 0 end = 0 ->
  status_at w (clock s2) fast_piezo_locked = Ok false ->
  status_at w (clock s3) is_any_limit_reached = Ok false ->
  cycle w s = (Ok Continue, snd (take w (Sleep 1) s3)).
Proof.
  cbv zeta. intros Hn H1 H2. apply Nat.eqb_eq in Hn.
  cbv beta iota zeta delta [cycle bind qsize ask take snd] in Hn, H1, H2 |- *.
  rewrite Hn, H1, H2. reflexivity.
Qed.

Lemma take_clock (k : step) (s : state) :
  clock (snd (take w k s)) = (clock s + lapse w (clock s) k)%Q.
Proof. reflexivity. Qed.

Lemma take_timer (k : step) (s : state) :
  timer (snd (take w k s)) = settle w (clock (snd (take w k s))) (timer s).
Proof. reflexivity. Qed.

Lemma take_sends (k : step) (s : state) :
  (forall c, k <> Send c) ->
  sends (trace (snd (take w k s))) = sends (trace s).
Proof.
  intros Hk. cbn [take snd trace]. unfold sends. rewrite flat_map_app.
  cbn. destruct k; try apply app_nil_r. now destruct (Hk c).
Qed.

Section Idle.

Variable d : Q.

Hypothesis lapse_pos : forall t k, (0 <= lapse w t k)%Q.
Hypothesis lapse_max : forall t k, (lapse w t k <= allowance d k)%Q.
Hypothesis sleep_min : forall t, (1 <= lapse w t (Sleep 1))%Q.
Hypothesis never_locked : forall t, status_at w t fast_piezo_locked = Ok false.
Hypothesis no_limit : forall t, status_at w t is_any_limit_reached = Ok false.

(** A timer that nobody has cancelled is, after any step, armed or
    fired according to the clock. *)
Lemma take_armed (k : step) (s : state) :
  settle w (clock s) (timer s) = settle w (clock s) Armed ->
  timer (snd (take w k s)) = settle w (clock (snd (take w k s))) Armed.
Proof.
  intros H. rewrite take_timer.
  assert (Hle : (clock s <= clock (snd (take w k s)))%Q).
  { rewrite take_clock. pose proof (lapse_pos (clock s) k). lra. }
  destruct (timer s); cbn [settle] in H |- *;
    destruct (due w (clock s)) eqn:D; try discriminate; try reflexivity.
  now rewrite (due_later w _ _ Hle D).
Qed.

Lemma settled_armed (s : state) :
  timer s = settle w (clock s) Armed ->
  settle w (clock s) (timer s) = settle w (clock s) Armed.
Proof. intros ->. apply settle_later, Qle_refl. Qed.

Lemma overrun_pos : (0 <= d)%Q.
Proof.
  pose proof (lapse_pos 0 Look). pose proof (lapse_max 0 Look).
  cbn [allowance] in *. lra.
Qed.

(** The pass that finds a message is the last. *)
Lemma loop_stop_at_message (s : state) :
  let s1 := snd (take w Look s) in
  settle w (clock s) (timer s) = settle w (clock s) Armed ->
  (clock s <= timeout w + 1 + 3 * d)%Q ->
  put_by w (clock s1) + match timer s1 with Fired => 1 | _ => 0 end <> 0 ->
  exists s',
    (forall fuel, 0 < fuel -> loop w fuel s = Some (Ok TimedOut, s'))
    /\ (clock s <= clock s')%Q
    /\ (clock s' <= timeout w + 1 + 5 * d)%Q
    /\ sends (trace s') = sends (trace s)
    /\ ((forall t, put_by w t = 0) -> (timeout w <= clock s')%Q).
Proof.
  intros s1 Hinv Hup Hn.
  pose proof overrun_pos as Hd.
  pose proof (take_armed Look s Hinv) as Hinv1. fold s1 in Hinv1.
  assert (Hc1 : (clock s1 == clock s + lapse w (clock s) Look)%Q)
        by apply Qeq_refl.
  assert (Hc2 : (clock (snd (timer_cancel w s1)) == clock s1 + lapse w (clock s1) Cancel)%Q)
        by apply Qeq_refl.
  pose proof (lapse_pos (clock s) Look).
  pose proof (lapse_max (clock s) Look) as M1.
  pose proof (lapse_pos (clock s1) Cancel).
  pose proof (lapse_max (clock s1) Cancel) as M2.
  cbn [allowance] in M1, M2.
  exists (snd (timer_cancel w s1)). split; [|split; [|split; [|split]]].
  - intros [|fuel] Hf; [lia|]. rewrite clock_loop_step. now rewrite (pass_stop s Hn).
  - lra.
  - lra.
  - change (trace (snd (timer_cancel w s1))) with (trace (snd (take w Cancel s1))).
    rewrite take_sends by discriminate. unfold s1.
    now rewrite take_sends by discriminate.
  - intros Hputs. rewrite Hputs, Hinv1 in Hn. cbn [Nat.add settle] in Hn.
    destruct (due w (clock s1)) eqn:D; [|now destruct Hn].
    apply due_not_before in D. lra.
Qed.

(** A laser that never locks and reaches no limit is polled until the
    first look that finds a message, which comes no later than the
    first look after the timer is due. *)
Lemma polled_until_message (m : nat) :
  forall s,
    settle w (clock s) (timer s) = settle w (clock s) Armed ->
    (clock s <= timeout w + 1 + 3 * d)%Q ->
    (timeout w < clock s + inject_Z (Z.of_nat m))%Q ->
    exists s',
      (forall fuel, m < fuel -> loop w fuel s = Some (Ok TimedOut, s'))
      /\ (clock s <= clock s')%Q
      /\ (clock s' <= timeout w + 1 + 5 * d)%Q
      /\ sends (trace s') = sends (trace s)
      /\ ((forall t, put_by w t = 0) -> (timeout w <= clock s')%Q).
Proof.
  pose proof overrun_pos as Hd.
  induction m as [|m IH]; intros s Hinv Hup Hm;
    pose proof (take_armed Look s Hinv) as Hinv1;
    pose proof (loop_stop_at_message s Hinv Hup) as Stop; cbv zeta in Stop;
    pose proof (lapse_pos (clock s) Look);
    pose proof (lapse_max (clock s) Look) as M1; cbn [allowance] in M1;
    set (s1 := snd (take w Look s)) in *;
    assert (Hc1 : (clock s1 == clock s + lapse w (clock s) Look)%Q)
        by apply Qeq_refl.
  - (* the timer is due at this look *)
    apply Stop. rewrite Hinv1. cbn [settle].
    rewrite due_after; [lia|].
    change (inject_Z (Z.of_nat 0)) with 0%Q in Hm. lra.
  - destruct (Nat.eq_dec
                (put_by w (clock s1) + match timer s1 with Fired => 1 | _ => 0 end) 0)
      as [Hn|Hn].
    + (* nothing in the queue: the pass runs to its sleep *)
      assert (D : due w (clock s1) = false).
      { rewrite Hinv1 in Hn. cbn [settle] in Hn.
        destruct (due w (clock s1)); [lia|reflexivity]. }
      apply not_due_yet in D.
      set (s2 := snd (take w (Ask fast_piezo_locked) s1)).
      set (s3 := snd (take w (Ask is_any_limit_reached) s2)).
      set (s4 := snd (take w (Sleep 1) s3)).
      pose proof (pass_idle s Hn (never_locked _) (no_limit _)) as C.
      fold s1 s2 s3 s4 in C.
      assert (Hc2 : (clock s2 == clock s1 + lapse w (clock s1) (Ask fast_piezo_locked))%Q)
        by apply Qeq_refl.
      assert (Hc3 : (clock s3 == clock s2 + lapse w (clock s2) (Ask is_any_limit_reached))%Q)
        by apply Qeq_refl.
      assert (Hc4 : (clock s4 == clock s3 + lapse w (clock s3) (Sleep 1))%Q)
        by apply Qeq_refl.
      pose proof (lapse_pos (clock s1) (Ask fast_piezo_locked)).
      pose proof (lapse_pos (clock s2) (Ask is_any_limit_reached)).
      pose proof (sleep_min (clock s3)).
      pose proof (lapse_max (clock s1) (Ask fast_piezo_locked)) as M2.
      pose proof (lapse_max (clock s2) (Ask is_any_limit_reached)) as M3.
      pose proof (lapse_max (clock s3) (Sleep 1)) as M4.
      cbn [allowance] in M2, M3, M4.
      change (inject_Z (Z.of_nat 1)) with 1%Q in M4.
      rewrite Nat2Z.inj_succ, <- Z.add_1_r, inject_Z_plus in Hm.
      change (inject_Z 1) with 1%Q in Hm.
      destruct (IH s4) as (s' & Hloop & Hlo & Hhi & Hsends & Hlow).
      * apply settled_armed. unfold s4, s3, s2.
        now do 3 apply take_armed, settled_armed.
      * lra.
      * lra.
      * exists s'. split; [|split; [|split; [|split]]].
        -- intros [|fuel] Hf; [lia|]. rewrite clock_loop_step, C. apply Hloop. lia.
        -- lra.
        -- exact Hhi.
        -- rewrite Hsends. unfold s4, s3, s2, s1.
           now rewrite !take_sends by discriminate.
        -- exact Hlow.
    + destruct (Stop Hn) as (s' & Hloop & Hrest).
      exists s'. split; [|exact Hrest]. intros fuel Hf. apply Hloop. lia.
Qed.

End Idle.


End Thread.



(** With an instrument that answers at once the loop ends at 5 s. *)
Example prompt_link_times_out :
  report (loop prompt_link 6 started)
  = Some (Ok TimedOut, (5 # 1)%Q, [0%Q; 1%Q; 2%Q; 3%Q; 4%Q; 5%Q]).
Proof. vm_compute. reflexivity. Qed.

End WallClockFacts.

(** ** The wavelength dialog and the control-loop toggles *)

Module ControlApplicationFacts.
Import ControlApplication.

(** Unfolds a slot down to lists of events. *)
Ltac slot :=
  unfold set_wavelength_dialog, toggle_fast_piezo_control,
    toggle_piezo_etalon_control, bind, ret, emit, call_set_control, getDouble,
    warning,
    wavemeter_wavelength;
  cbn [app fst snd].

Section Slots.

Variable d : desk.

(** The dialog once the user has accepted a number: it asks for
    confirmation exactly when the test of the threshold succeeds. *)
Lemma dialog_accepted (current target : float) :
  current_wavelength d = Ok current ->
  get_double d current = (target, true) ->
  snd (set_wavelength_dialog d []) =
  preamble d ++ GetDouble current (target, true) ::
    (if PrimFloat.leb 10 (PrimFloat.abs (PrimFloat.sub current target))
     then Warning target (warning_answer d target) ::
            (if is_No (warning_answer d target) then []
             else [PrintSetting target; StartThread (set_wavelength target)])
     else [PrintSetting target; StartThread (set_wavelength target)]).
Proof.
  unfold current_wavelength, preamble. intros Hc Hg. slot.
  destruct (target_wavelength d) as [x|].
  - injection Hc as ->. cbn [app]. rewrite Hg.
    destruct (PrimFloat.leb _ _); [|reflexivity].
    now destruct (warning_answer d target).
  - rewrite Hc. cbn [app]. rewrite Hg.
    destruct (PrimFloat.leb _ _); [|reflexivity].
    now destruct (warning_answer d target).
Qed.

Lemma preamble_silent :
  confirmations (preamble d) = [] /\ dispatched (preamble d) = [].
Proof. unfold preamble. now destruct (target_wavelength d). Qed.

(** C7, as the code has it.  When the user has accepted a requested
    wavelength, the dialog asks for confirmation if and only if
    [abs(current - requested)], computed in binary64 arithmetic, is 10
    or more.  It then asks before any thread is given [set_wavelength],
    gives none on the answer No and the requested wavelength on the
    answer Yes; otherwise it hands the wavelength over without
    asking. *)
Theorem confirmation_iff_threshold (current target : float) :
  current_wavelength d = Ok current ->
  get_double d current = (target, true) ->
  let tr := snd (set_wavelength_dialog d []) in
  let answer := warning_answer d target in
  let far := PrimFloat.leb 10 (PrimFloat.abs (PrimFloat.sub current target)) in
  (far = true <-> confirmations tr <> [])
  /\ (far = true ->
      tr = preamble d ++ [GetDouble current (target, true); Warning target answer]
             ++ match answer with
                | No => []
                | Yes => [PrintSetting target; StartThread (set_wavelength target)]
                end
      /\ confirmations tr = [answer]
      /\ dispatched tr = match answer with No => [] | Yes => [target] end)
  /\ (far = false ->
      tr = preamble d ++ [GetDouble current (target, true);
                          PrintSetting target;
                          StartThread (set_wavelength target)]
      /\ confirmations tr = []
      /\ dispatched tr = [target]).
Proof.
  intros Hc Hg tr answer far.
  pose proof (dialog_accepted current target Hc Hg) as E.
  fold tr answer far in E.
  destruct preamble_silent as [Pc Pd].
  assert (Big : far = true ->
                tr = preamble d ++ [GetDouble current (target, true);
                                    Warning target answer]
                       ++ match answer with
                          | No => []
                          | Yes => [PrintSetting target;
                                    StartThread (set_wavelength target)]
                          end
                /\ confirmations tr = [answer]
                /\ dispatched tr = match answer with No => [] | Yes => [target] end).
  { intros H. rewrite H in E. rewrite E.
    unfold confirmations, dispatched in *. rewrite !flat_map_app, Pc, Pd.
    repeat split; now destruct answer. }
  assert (Small : far = false ->
                  tr = preamble d ++ [GetDouble current (target, true);
                                      PrintSetting target;
                                      StartThread (set_wavelength target)]
                  /\ confirmations tr = []
                  /\ dispatched tr = [target]).
  { intros H. rewrite H in E. rewrite E.
    unfold confirmations, dispatched in *. rewrite !flat_map_app, Pc, Pd.
    repeat split. }
  split; [|split; [exact Big|exact Small]].
  split.
  - intros H. destruct (Big H) as (_ & -> & _). discriminate.
  - intros H. destruct far; [reflexivity|].
    now destruct (Small eq_refl) as (_ & ? & _).
Qed.

(** C10.  [toggle_fast_piezo_control(checked)] makes one call on the
    instrument object, [set_piezo_etalon_control(checked)]: the call
    that [toggle_piezo_etalon_control(checked)] makes, and no call on
    a setter of the fast piezo loop.  Around it the slot prints and
    moves the check mark of the fast piezo action. *)
Theorem fast_piezo_toggle_sets_piezo_etalon (checked : bool) :
  let tr := snd (toggle_fast_piezo_control d checked []) in
  calls tr = [set_control piezo_etalon checked]
  /\ calls tr = calls (snd (toggle_piezo_etalon_control d checked []))
  /\ (forall b, ~ In (set_control fast_piezo b) (calls tr))
  /\ tr = [Print (verb checked ++ " fast piezo.");
           SetChecked fast_piezo (negb checked);
           Call (set_control piezo_etalon checked)
                (setter d piezo_etalon checked)]
          ++ match setter d piezo_etalon checked with
             | Ok _ => [SetChecked fast_piezo checked]
             | Raise _ => []
             end.
Proof.
  slot. destruct (setter d piezo_etalon checked) as [u|e]; cbn;
    repeat split; intros b [H|[]]; discriminate.
Qed.

End Slots.

(** Scenario E: from 800 nm, a request of 812 nm is asked about and one
    of 809 nm is not. *)
Example scenario_E_812 :
  snd (set_wavelength_dialog (scenario_E 812 No) [])
  = [GetDouble 800 (812%float, true); Warning 812 No].
Proof. vm_compute. reflexivity. Qed.

Example scenario_E_809 :
  snd (set_wavelength_dialog (scenario_E 809 No) [])
  = [GetDouble 800 (809%float, true);
     PrintSetting 809;
     StartThread (set_wavelength 809)].
Proof. vm_compute. reflexivity. Qed.

(** C7, as stated, fails next to the threshold, in both directions.
    From 0.001 nm to 10.001 nm: the two floats the dialog holds are less
    than 10 apart, their difference rounds to 10, and the dialog asks.
    From 1023.985 nm to 1033.985 nm: the wavelengths shown and entered
    are 10 apart and the floats held for them are less than a millionth
    of a millionth off, their difference comes out below 10, and the
    dialog does not ask. *)
Lemma confirmation_differs_at_threshold :
  (exists a b,
      exact_value (thousandths 1) = Some a
      /\ exact_value (thousandths 10001) = Some b
      /\ (Qabs (a - b) < 10 # 1)%Q
      /\ snd (set_wavelength_dialog
                (request (thousandths 1) (thousandths 10001) Yes) [])
         = [GetDouble (thousandths 1) (thousandths 10001, true);
            Warning (thousandths 10001) Yes;
            PrintSetting (thousandths 10001);
            StartThread (set_wavelength (thousandths 10001))])
  /\ (exists a b,
         exact_value (thousandths 1023985) = Some a
         /\ exact_value (thousandths 1033985) = Some b
         /\ (Qabs (a - (1023985 # 1000)) < 1 # 1000000000000)%Q
         /\ (Qabs (b - (1033985 # 1000)) < 1 # 1000000000000)%Q
         /\ (Qabs ((1023985 # 1000) - (1033985 # 1000)) == 10 # 1)%Q
         /\ snd (set_wavelength_dialog
                   (request (thousandths 1023985) (thousandths 1033985) No) [])
            = [GetDouble (thousandths 1023985) (thousandths 1033985, true);
               PrintSetting (thousandths 1033985);
               StartThread (set_wavelength (thousandths 1033985))]).
Proof.
  split.
  - eexists. eexists. split; [vm_compute; reflexivity|].
    split; [vm_compute; reflexivity|].
    split; [vm_compute; reflexivity|]. vm_compute. reflexivity.
  - eexists. eexists. split; [vm_compute; reflexivity|].
    split; [vm_compute; reflexivity|].
    split; [vm_compute; reflexivity|].
    split; [vm_compute; reflexivity|].
    split; [vm_compute; reflexivity|]. vm_compute. reflexivity.
Qed.

(** C7 in Scenario E: 12 nm away the dialog asks, and the answer Yes
    hands the wavelength over. *)
Lemma confirmation_iff_threshold_witness :
  current_wavelength (scenario_E 812 Yes) = Ok 800%float
  /\ get_double (scenario_E 812 Yes) 800 = (812%float, true)
  /\ confirmations (snd (set_wavelength_dialog (scenario_E 812 Yes) [])) = [Yes]
  /\ dispatched (snd (set_wavelength_dialog (scenario_E 812 Yes) [])) = [812%float].
Proof.
  split; [reflexivity|]. split; [reflexivity|].
  destruct (proj1 (proj2 (confirmation_iff_threshold (scenario_E 812 Yes) 800 812
                            eq_refl eq_refl)) eq_refl) as (_ & C & D).
  split; [exact C | exact D].
Defined.

End ControlApplicationFacts.

(** ** More about stripping and splitting *)

Module PyStrMoreFacts.
Import PyStr PyStrMore.

Lemma rstrip_allspace (ws : string) : allspace ws = true -> rstrip ws = EmptyString.
Proof.
  induction ws as [|c ws IH]; [reflexivity|]. simpl.
  intros H. apply andb_prop in H as [Hc Hws]. now rewrite (IH Hws), Hc.
Qed.

Lemma rstrip_app_allspace (s ws : string) :
  allspace ws = true -> rstrip (s ++ ws) = rstrip s.
Proof.
  intros H. induction s as [|c s IH]; simpl.
  - now apply rstrip_allspace.
  - now rewrite IH.
Qed.

Lemma rstrip_nospace (s : string) : nospace s = true -> rstrip s = s.
Proof.
  induction s as [|c s IH]; [reflexivity|]. simpl.
  intros H. apply andb_prop in H as [Hc Hs]. rewrite (IH Hs).
  apply negb_true_iff in Hc. rewrite Hc. now destruct s.
Qed.

(** A string that ends in a run without spaces is its own [rstrip]. *)
Lemma rstrip_app_nospace (a b : string) :
  nospace b = true -> b <> EmptyString -> rstrip (a ++ b) = (a ++ b)%string.
Proof.
  intros Hb Hne. induction a as [|c a IH]; simpl.
  - now apply rstrip_nospace.
  - rewrite IH. destruct (a ++ b)%string eqn:E; [|reflexivity].
    destruct a; simpl in E; [congruence | discriminate].
Qed.

Lemma rstrip_idem (s : string) : rstrip (rstrip s) = rstrip s.
Proof.
  induction s as [|c s IH]; [reflexivity|]. simpl.
  destruct (rstrip s) as [|d r] eqn:E.
  - destruct (isspace c) eqn:Hc; [reflexivity|]. simpl. now rewrite Hc.
  - change (rstrip (String c (String d r)) = String c (String d r)).
    simpl in *. now rewrite IH.
Qed.

(** [rstrip] keeps the first character of what it leaves. *)
Lemma rstrip_head (c : ascii) (s : string) :
  rstrip (String c s) = EmptyString
  \/ exists r, rstrip (String c s) = String c r.
Proof.
  simpl. destruct (rstrip s).
  - destruct (isspace c); eauto.
  - eauto.
Qed.

Lemma lstrip_head (s : string) :
  lstrip s = EmptyString
  \/ exists c r, lstrip s = String c r /\ isspace c = false.
Proof.
  induction s as [|c s IH]; [now left|]. simpl.
  destruct (isspace c) eqn:Hc; [exact IH|]. right. eauto.
Qed.

(** Stripping a stripped string changes nothing. *)
Lemma strip_idem (s : string) : strip (strip s) = strip s.
Proof.
  unfold strip.
  destruct (lstrip_head s) as [E|(c & r & E & Hc)]; rewrite E; [reflexivity|].
  destruct (rstrip_head c r) as [E'|(r' & E')]; rewrite E'; [reflexivity|].
  rewrite PyStrFacts.lstrip_nonspace_head by exact Hc.
  rewrite <- E'. apply rstrip_idem.
Qed.

Lemma append_empty (s : string) : (s ++ "")%string = s.
Proof. induction s as [|c s IH]; [reflexivity|]. simpl. now rewrite IH. Qed.

(** Reading a run without spaces only fills the current token. *)
Lemma split_aux_nospace (a : string) :
  nospace a = true ->
  forall rest cur,
    split_aux (a ++ rest) cur
    = split_aux rest (rev (list_ascii_of_string a) ++ cur).
Proof.
  induction a as [|c a IH]; intros Ha rest cur; [reflexivity|].
  simpl in Ha. apply andb_prop in Ha as [Hc Ha]. apply negb_true_iff in Hc.
  simpl. rewrite Hc, IH by exact Ha. now rewrite <- app_assoc.
Qed.

Lemma flush_token (a : string) (acc : list string) :
  a <> EmptyString ->
  flush (rev (list_ascii_of_string a) ++ []) acc = a :: acc.
Proof.
  intros Hne. rewrite app_nil_r. unfold flush.
  destruct (rev (list_ascii_of_string a)) eqn:E.
  - destruct a; [congruence|]. simpl in E.
    now apply app_eq_nil in E as [_ E].
  - now rewrite <- E, rev_involutive, string_of_list_ascii_of_string.
Qed.

(** A response without white space is one token, or none when empty. *)
Lemma split_nospace (a : string) :
  nospace a = true ->
  split a = match a with EmptyString => [] | _ => [a] end.
Proof.
  intros Ha. unfold split.
  rewrite <- (append_empty a) at 1.
  rewrite split_aux_nospace by exact Ha. cbn [split_aux].
  destruct a as [|c a]; [reflexivity|]. now rewrite flush_token.
Qed.

(** A token, a space, and the rest. *)
Lemma split_token (a : string) (sp : ascii) (rest : string) :
  nospace a = true -> a <> EmptyString -> isspace sp = true ->
  split (a ++ String sp rest) = a :: split rest.
Proof.
  intros Ha Hne Hsp. unfold split.
  rewrite split_aux_nospace by exact Ha. cbn [split_aux]. rewrite Hsp.
  now rewrite flush_token.
Qed.

End PyStrMoreFacts.

(** ** More about [Matisse.query], and [Matisse.__init__] *)

Module MatisseMoreFacts.
Import Matisse MatisseInit PyStrMore.

Lemma append_assoc (a b c : string) : ((a ++ b) ++ c = a ++ (b ++ c))%string.
Proof. induction a as [|x a IH]; [reflexivity|]. simpl. now rewrite IH. Qed.

Lemma lstrip_allspace (ws : string) :
  allspace ws = true -> PyStr.lstrip ws = EmptyString.
Proof.
  induction ws as [|c ws IH]; [reflexivity|]. simpl.
  intros H. apply andb_prop in H as [Hc Hws]. now rewrite Hc, IH.
Qed.

(** A space-free prefix cannot reach over a space. *)
Lemma startswith_before_space (p : string) :
  PyStr.nospace p = true ->
  forall a sp rest,
    PyStr.isspace sp = true ->
    PyStr.startswith p (a ++ String sp rest) = PyStr.startswith p a.
Proof.
  induction p as [|x p IH]; intros Hp a sp rest Hsp; [reflexivity|].
  simpl in Hp. apply andb_prop in Hp as [Hx Hp]. apply negb_true_iff in Hx.
  destruct a as [|y a]; simpl.
  - destruct (Ascii.eqb_spec x sp) as [->|_]; [congruence | reflexivity].
  - now rewrite IH.
Qed.

(** What [strip] leaves of a token followed by white space, and of two
    tokens a space apart followed by white space. *)
Lemma strip_one_token (body ws : string) :
  PyStr.nospace body = true -> allspace ws = true ->
  PyStr.strip (body ++ ws) = body.
Proof.
  intros Hb Hws. unfold PyStr.strip. destruct body as [|c body].
  - simpl. now rewrite lstrip_allspace.
  - simpl in Hb. apply andb_prop in Hb as [Hc Hb].
    change (String c body ++ ws)%string with (String c (body ++ ws)).
    rewrite PyStrFacts.lstrip_nonspace_head by now apply negb_true_iff.
    change (String c (body ++ ws)) with (String c body ++ ws)%string.
    rewrite PyStrMoreFacts.rstrip_app_allspace by exact Hws.
    apply PyStrMoreFacts.rstrip_nospace. simpl. now rewrite Hc, Hb.
Qed.

Lemma strip_two_tokens (name value ws : string) :
  PyStr.nospace name = true -> name <> EmptyString ->
  PyStr.nospace value = true -> value <> EmptyString ->
  allspace ws = true ->
  PyStr.strip (name ++ " " ++ value ++ ws) = (name ++ " " ++ value)%string.
Proof.
  intros Hn Hne Hv Hve Hws. unfold PyStr.strip.
  destruct name as [|c name]; [congruence|].
  simpl in Hn. apply andb_prop in Hn as [Hc Hn].
  change (String c name ++ " " ++ value ++ ws)%string
    with (String c (name ++ " " ++ value ++ ws)).
  rewrite PyStrFacts.lstrip_nonspace_head by now apply negb_true_iff.
  change (String c (name ++ " " ++ value ++ ws))
    with (String c name ++ (" " ++ (value ++ ws)))%string.
  rewrite <- !append_assoc.
  rewrite PyStrMoreFacts.rstrip_app_allspace by exact Hws.
  now apply PyStrMoreFacts.rstrip_app_nospace.
Qed.

Section Query.

Variable F : Type.
Variable py_float : string -> option F.
Variable dev : instrument.

Abbreviation query := (Matisse.query F py_float dev).

Lemma sent_app (a b : list op) : sent (a ++ b) = sent a ++ sent b.
Proof. apply flat_map_app. Qed.

(** X1.  A numeric query answered by a name, a space and a value,
    followed by any white space, makes one exchange and returns
    [float(value)]; it raises [ValueError] when the value is no float
    literal.  This holds whether errors are to be raised or not. *)
Theorem query_reads_second_token (depth : nat) tr command roe name value ws :
  dev (sent tr) command = Reply (name ++ " " ++ value ++ ws) ->
  PyStr.nospace name = true -> name <> EmptyString ->
  PyStr.startswith ERROR_SENTINEL name = false ->
  PyStr.nospace value = true -> value <> EmptyString ->
  allspace ws = true ->
  query (S depth) tr command true roe
  = (match py_float value with
     | Some x => Ok (VFloat x)
     | None => Raise ValueError
     end,
     tr ++ [Exchange command; ParseNumeric (name ++ " " ++ value)]).
Proof.
  intros Hdev Hn Hne Hs Hv Hve Hws.
  rewrite MatisseFacts.query_frame. cbv zeta. rewrite Hdev.
  rewrite strip_two_tokens by assumption.
  change (name ++ " " ++ value)%string with (name ++ String " " value)%string.
  rewrite startswith_before_space, Hs by reflexivity.
  unfold parse_numeric.
  rewrite PyStrMoreFacts.split_token by trivial.
  rewrite PyStrMoreFacts.split_nospace by exact Hv.
  destruct value as [|c v]; [congruence|]. cbn [nth_error].
  rewrite <- app_assoc. now destruct (py_float (String c v)).
Qed.

(** X2.  A numeric query answered by a single token that is no error (or
    by nothing but white space) raises [IndexError]: there is no second
    token to convert. *)
Theorem query_numeric_needs_two_tokens (depth : nat) tr command roe body ws :
  dev (sent tr) command = Reply (body ++ ws) ->
  PyStr.nospace body = true ->
  PyStr.startswith ERROR_SENTINEL body = false ->
  allspace ws = true ->
  query (S depth) tr command true roe
  = (Raise IndexError, tr ++ [Exchange command; ParseNumeric body]).
Proof.
  intros Hdev Hb Hs Hws.
  rewrite MatisseFacts.query_frame. cbv zeta. rewrite Hdev.
  rewrite strip_one_token, Hs by assumption.
  unfold parse_numeric. rewrite PyStrMoreFacts.split_nospace by exact Hb.
  rewrite <- app_assoc. now destruct body.
Qed.

(** What a call with a frame to run in has sent: the command, then
    nothing but the error-code query. *)
Lemma query_sent (depth : nat) :
  forall tr command numeric roe,
  exists k,
    sent (snd (query (S depth) tr command numeric roe))
    = sent tr ++ command :: repeat ERROR_CODE_QUERY k
    /\ k <= depth
    /\ (roe = false -> k = 0).
Proof.
  induction depth as [|depth IH]; intros tr command numeric roe;
    rewrite MatisseFacts.query_frame; cbv zeta;
    destruct (dev (sent tr) command) as [raw|];
    try (exists 0; cbn [snd repeat]; rewrite sent_app; repeat split; lia).
  - destruct (PyStr.startswith _ _); [destruct roe|destruct numeric];
      exists 0; cbn [snd repeat Matisse.query];
      rewrite ?sent_app; cbn; rewrite ?app_nil_r; repeat split; lia.
  - destruct (PyStr.startswith _ _); [destruct roe|destruct numeric];
      try (exists 0; cbn [snd repeat]; rewrite ?sent_app; cbn;
           rewrite ?app_nil_r; repeat split; lia).
    destruct (IH (tr ++ [Exchange command]) ERROR_CODE_QUERY false true)
      as (k & Hk & Hle & _).
    destruct (Matisse.query F py_float dev (S depth) _ _ _ _) as [[[code|x]|e] tr2];
      cbn [snd] in *; exists (S k); rewrite Hk, sent_app, <- app_assoc;
      (split; [reflexivity|]); split; (lia || discriminate).
Qed.

(** X3.  Whatever the instrument answers, a call of [query] sends the
    command once and after it nothing but "ERROR:CODE?", at most one
    exchange per stack frame, none without a frame; with [raise_on_error]
    off it sends the command and nothing else. *)
Theorem query_exchanges (depth : nat) tr command numeric roe :
  exists now_sent,
    sent (snd (query depth tr command numeric roe)) = sent tr ++ now_sent
    /\ List.length now_sent <= depth
    /\ (depth = 0 -> now_sent = [])
    /\ (0 < depth ->
        exists k, now_sent = command :: repeat ERROR_CODE_QUERY k
                  /\ (roe = false -> k = 0)).
Proof.
  destruct depth as [|depth].
  - exists []. cbn. rewrite app_nil_r. repeat split; try lia.
  - destruct (query_sent depth tr command numeric roe) as (k & Hk & Hle & Hroe).
    exists (command :: repeat ERROR_CODE_QUERY k).
    split; [exact Hk|]. split; [cbn; rewrite repeat_length; lia|].
    split; [discriminate|]. intros _. exists k. now split.
Qed.

(** X4.  An instrument that answers every command, "ERROR:CODE?" too,
    with an error response drives [query] through all its stack frames:
    the call raises [RecursionError], having sent the command and then
    "ERROR:CODE?" once per remaining frame. *)
Theorem query_error_cascade (depth : nat) :
  (forall history command,
      exists raw, dev history command = Reply raw
                  /\ PyStr.startswith ERROR_SENTINEL (PyStr.strip raw) = true) ->
  forall tr command numeric,
    query (S depth) tr command numeric true
    = (Raise RecursionError,
       tr ++ Exchange command :: repeat (Exchange ERROR_CODE_QUERY) depth).
Proof.
  intros Hdev. induction depth as [|depth IH]; intros tr command numeric;
    rewrite MatisseFacts.query_frame; cbv zeta;
    destruct (Hdev (sent tr) command) as (raw & -> & ->).
  - reflexivity.
  - rewrite IH, <- app_assoc. reflexivity.
Qed.

(** X5.  When the answer to "ERROR:CODE?" is itself an error response and
    the next one is not, the [RuntimeError] that comes out reads
    "Error executing Matisse command 'ERROR:CODE?' " followed by the
    second answer: it names the follow-up as the failed command and is
    the same whatever command failed first. *)
Theorem query_nested_error_names_followup (depth : nat) tr command numeric r1 r2 r3 :
  dev (sent tr) command = Reply r1 ->
  PyStr.startswith "!ERROR" (PyStr.strip r1) = true ->
  dev (sent tr ++ [command]) "ERROR:CODE?" = Reply r2 ->
  PyStr.startswith "!ERROR" (PyStr.strip r2) = true ->
  dev (sent tr ++ [command; "ERROR:CODE?"]) "ERROR:CODE?" = Reply r3 ->
  PyStr.startswith "!ERROR" (PyStr.strip r3) = false ->
  query (S (S (S depth))) tr command numeric true
  = (Raise (RuntimeError
              ("Error executing Matisse command 'ERROR:CODE?' " ++ PyStr.strip r3)),
     tr ++ [Exchange command; Exchange "ERROR:CODE?"; Exchange "ERROR:CODE?"]).
Proof.
  change "ERROR:CODE?" with ERROR_CODE_QUERY.
  change "!ERROR" with ERROR_SENTINEL.
  intros H1 S1 H2 S2 H3 S3.
  rewrite MatisseFacts.query_frame. cbv zeta. rewrite H1, S1.
  rewrite MatisseFacts.query_frame. cbv zeta.
  rewrite sent_app. cbn [sent flat_map app]. rewrite H2, S2.
  rewrite MatisseFacts.query_frame. cbv zeta.
  rewrite !sent_app. cbn [sent flat_map app]. rewrite <- app_assoc.
  cbn [app]. rewrite H3, S3. now rewrite <- !app_assoc.
Qed.

(** X6.  A string that [query] returns has no white space at either end:
    stripping it again gives the same string. *)
Theorem query_result_is_stripped (depth : nat) tr command numeric roe s :
  fst (query depth tr command numeric roe) = Ok (VStr s) ->
  PyStr.strip s = s.
Proof.
  destruct depth as [|depth]; [discriminate|].
  rewrite MatisseFacts.query_frame. cbv zeta.
  destruct (dev (sent tr) command) as [raw|]; [|discriminate].
  destruct (PyStr.startswith _ _).
  - destruct roe.
    + now destruct (Matisse.query F py_float dev depth _ _ _ _) as [[[code|x]|e] tr2].
    + intros [= <-]. apply PyStrMoreFacts.strip_idem.
  - destruct numeric.
    + unfold parse_numeric. cbn [fst].
      destruct (nth_error _ 1) as [tok|]; [|discriminate].
      now destruct (py_float tok).
    + intros [= <-]. apply PyStrMoreFacts.strip_idem.
Qed.

(** X7.  With a numeric result asked for and errors raised, [query]
    returns a float or raises, never a string; so does
    [bifi_wavelength], whose first exchange is "MOTBI:WL?". *)
Theorem numeric_query_returns_float (depth : nat) tr command :
  (forall s, fst (query depth tr command true true) <> Ok (VStr s))
  /\ (forall s, fst (bifi_wavelength F py_float dev depth tr) <> Ok (VStr s))
  /\ exists ext,
      snd (bifi_wavelength F py_float dev (S depth) tr)
      = tr ++ Exchange "MOTBI:WL?" :: ext.
Proof.
  assert (A : forall c s, fst (query depth tr c true true) <> Ok (VStr s)).
  { intros c s. destruct depth as [|d]; [discriminate|].
    rewrite MatisseFacts.query_frame. cbv zeta.
    destruct (dev (sent tr) c) as [raw|]; [|discriminate].
    destruct (PyStr.startswith _ _).
    - now destruct (Matisse.query F py_float dev d _ _ _ _) as [[[code|x]|e] tr2].
    - unfold parse_numeric. cbn [fst].
      destruct (nth_error _ 1) as [tok|]; [|discriminate].
      now destruct (py_float tok). }
  split; [apply A|]. split; [apply A|].
  unfold bifi_wavelength.
  destruct (MatisseFacts.query_plain F py_float dev depth
              (tr ++ [Exchange "MOTBI:WL?"]) ERROR_CODE_QUERY true)
    as (r & ext & E & _).
  rewrite MatisseFacts.query_frame. cbv zeta.
  destruct (dev (sent tr) "MOTBI:WL?") as [raw|]; [|now exists []].
  destruct (PyStr.startswith _ _).
  - rewrite E. exists ext. rewrite <- app_assoc.
    now destruct r as [[code|x]|e].
  - eexists. cbn [snd]. now rewrite <- app_assoc.
Qed.

(** A plain query that returns with errors raised made one exchange and
    was answered without error. *)
Lemma query_ok_single (depth : nat) tr command v tr' :
  query depth tr command false true = (Ok v, tr') ->
  tr' = tr ++ [Exchange command]
  /\ exists raw, dev (sent tr) command = Reply raw
                 /\ PyStr.startswith ERROR_SENTINEL (PyStr.strip raw) = false.
Proof.
  destruct depth as [|depth]; [discriminate|].
  rewrite MatisseFacts.query_frame. cbv zeta.
  destruct (dev (sent tr) command) as [raw|]; [|discriminate].
  destruct (PyStr.startswith _ _) eqn:S.
  - now destruct (Matisse.query F py_float dev depth _ _ _ _) as [[[code|x]|e] tr2].
  - intros [= _ <-]. eauto.
Qed.

Lemma reraise_not_visa (e : exn) : reraise e <> VisaIOError.
Proof. destruct e; discriminate. Qed.

(** X8.  [Matisse.__init__].  An exception of [visa.ResourceManager()],
    a [VisaIOError] too, passes unchanged: that call is outside the
    [try].  Once the resource manager exists, [__init__] never fails with
    a [VisaIOError]: from [open_resource] or from the query it comes out
    as the [IOError] that says the laser cannot be reached, while every
    other exception of the two passes unchanged.  It succeeds only after
    a single exchange, "ERROR:CLEAR", answered without error; an error
    response to "ERROR:CLEAR" makes it fail. *)
Theorem init_outcomes (resource_manager open_resource : res unit) (depth : nat) :
  let r := init F py_float dev resource_manager open_resource depth in
  let cant_reach :=
    OtherError "IOError: Can't reach Matisse. Make sure it's on and connected via USB." in
  (forall e, resource_manager = Raise e -> r = (Raise e, []))
  /\ (resource_manager = Ok tt ->
      fst r <> Raise VisaIOError
      /\ (open_resource = Raise VisaIOError -> r = (Raise cant_reach, []))
      /\ (forall e, open_resource = Raise e -> e <> VisaIOError -> r = (Raise e, []))
      /\ (open_resource = Ok tt ->
          forall e tr,
            query depth [] "ERROR:CLEAR" false true = (Raise e, tr) ->
            (e = VisaIOError -> r = (Raise cant_reach, tr))
            /\ (e <> VisaIOError -> r = (Raise e, tr)))
      /\ (open_resource = Ok tt ->
          dev [] "ERROR:CLEAR" = LinkError ->
          init F py_float dev resource_manager open_resource (S depth)
          = (Raise cant_reach, [Exchange "ERROR:CLEAR"]))
      /\ (fst r = Ok tt ->
          open_resource = Ok tt
          /\ snd r = [Exchange "ERROR:CLEAR"]
          /\ exists raw, dev [] "ERROR:CLEAR" = Reply raw
                         /\ PyStr.startswith "!ERROR" (PyStr.strip raw) = false)
      /\ (forall raw, open_resource = Ok tt ->
                      dev [] "ERROR:CLEAR" = Reply raw ->
                      PyStr.startswith "!ERROR" (PyStr.strip raw) = true ->
                      exists e, fst r = Raise e)).
Proof.
  change "!ERROR" with ERROR_SENTINEL.
  cbv zeta. split.
  - intros e ->. reflexivity.
  - intros ->. unfold init. destruct open_resource as [[]|e].
    + destruct (Matisse.query F py_float dev depth [] "ERROR:CLEAR" false true)
        as [[v|e] tr'] eqn:Q; cbn [fst snd].
      * destruct (query_ok_single _ _ _ _ _ Q) as (-> & raw & Hraw & Hs).
        cbn [sent flat_map] in Hraw.
        split; [discriminate|]. split; [discriminate|].
        split; [discriminate|].
        split; [intros _ e tr; discriminate|].
        split; [intros _ Hl; congruence|].
        split; [intros _; split; [reflexivity|split; [reflexivity|eauto]]|].
        intros raw' _ Hraw' Hs'. congruence.
      * split; [intros [= E]; now apply reraise_not_visa in E|].
        split; [discriminate|]. split; [discriminate|].
        split.
        { intros _ e' tr [= <- <-]. split.
          - intros ->. reflexivity.
          - intros Hne. destruct e; try reflexivity. now destruct Hne. }
        split.
        { intros _ Hl. rewrite MatisseFacts.query_frame. cbv zeta.
          cbn [sent flat_map]. now rewrite Hl. }
        split; [discriminate|]. eauto.
    + cbn [fst snd].
      split; [intros [= E]; now apply reraise_not_visa in E|].
      split; [intros [= ->]; reflexivity|].
      split.
      { intros e' [= <-] Hne. destruct e; try reflexivity. now destruct Hne. }
      split; [discriminate|]. split; [discriminate|].
      split; [discriminate|]. discriminate.
Qed.

End Query.

Lemma query_reads_second_token_witness :
  Matisse.query string literal dev_positions 1 [] "SCAN:NOW?" true true
  = (Ok (VFloat "0.25"), [Exchange "SCAN:NOW?"; ParseNumeric "POS 0.25"]).
Proof.
  exact (query_reads_second_token string literal dev_positions 0 [] "SCAN:NOW?"
           true "POS" "0.25" LF eq_refl eq_refl ltac:(discriminate) eq_refl
           eq_refl ltac:(discriminate) eq_refl).
Defined.

Lemma query_numeric_needs_two_tokens_witness :
  Matisse.query string literal dev_positions 1 [] "SCAN:NOW 0.5" true true
  = (Raise IndexError, [Exchange "SCAN:NOW 0.5"; ParseNumeric "OK"]).
Proof.
  exact (query_numeric_needs_two_tokens string literal dev_positions 0 []
           "SCAN:NOW 0.5" true "OK" LF eq_refl eq_refl eq_refl eq_refl).
Defined.

Lemma query_error_cascade_witness :
  Matisse.query string literal dev_always_error 3 [] "MOTBI:WL?" true true
  = (Raise RecursionError,
     [Exchange "MOTBI:WL?"; Exchange ERROR_CODE_QUERY; Exchange ERROR_CODE_QUERY]).
Proof.
  apply (query_error_cascade string literal dev_always_error 2).
  intros history command. exists "!ERROR 5". split; reflexivity.
Defined.

Lemma query_nested_error_names_followup_witness :
  Matisse.query string literal dev_error_twice 3 [] "MOTBI:WL?" true true
  = (Raise (RuntimeError "Error executing Matisse command 'ERROR:CODE?' ERROR:CODE 7"),
     [Exchange "MOTBI:WL?"; Exchange "ERROR:CODE?"; Exchange "ERROR:CODE?"]).
Proof.
  exact (query_nested_error_names_followup string literal dev_error_twice 0 []
           "MOTBI:WL?" true "!ERROR 5" "!ERROR 5" "ERROR:CODE 7"
           eq_refl eq_refl eq_refl eq_refl eq_refl eq_refl).
Defined.

(** X8, with no VISA library to be had, and on a link that fails at the
    first exchange. *)
Lemma init_outcomes_witness :
  init string literal dev_positions (Raise VisaIOError) (Ok tt) 3
  = (Raise VisaIOError, [])
  /\ init string literal (fun _ _ => LinkError) (Ok tt) (Ok tt) 3
     = (Raise (OtherError
                 "IOError: Can't reach Matisse. Make sure it's on and connected via USB."),
        [Exchange "ERROR:CLEAR"]).
Proof.
  split.
  - exact (proj1 (init_outcomes string literal dev_positions
                    (Raise VisaIOError) (Ok tt) 3) VisaIOError eq_refl).
  - exact (proj1 (proj2 (proj2 (proj2 (proj2
             (proj2 (init_outcomes string literal (fun _ _ => LinkError)
                       (Ok tt) (Ok tt) 2) eq_refl)))))
             eq_refl eq_refl).
Defined.

Lemma query_result_is_stripped_witness :
  fst (Matisse.query Q no_float dev_rejecting 1 [] "MOTBI:WL?" true false)
  = Ok (VStr "!ERROR 12")
  /\ PyStr.strip "!ERROR 12" = "!ERROR 12".
Proof.
  split; [reflexivity|].
  exact (query_result_is_stripped Q no_float dev_rejecting 1 [] "MOTBI:WL?" true false
           "!ERROR 12" eq_refl).
Defined.

End MatisseMoreFacts.

(** ** More about the lock supervisor *)

Module LockMoreFacts.
Import LockCorrectionThread LockTrace LockFacts.

Section Thread.

Variable w : world.

(** Every oracle answer a pass can depend on, case by case. *)
Ltac oracle_cases :=
  repeat (tidy;
          match goal with
          | |- context [match locked_at ?w ?t with _ => _ end] =>
              destruct (locked_at w t) as [[|]|?] eqn:?
          | |- context [match limit_at ?w ?t with _ => _ end] =>
              destruct (limit_at w t) as [[|]|?] eqn:?
          | |- context [send_at ?w ?t ?c] =>
              destruct (send_at w t c) as [[]|?] eqn:?
          end).

(** X9.  [attempt_piezo_corrections] sends the correction commands in
    their order and stops at the first that fails: what it has sent is the
    first [k] of the three, all three when it returns, and up to and
    including the one that raised otherwise.  It touches neither the
    clock, the timer nor the queue. *)
Theorem corrections_stop_at_first_failure (s : state) :
  exists k,
    1 <= k <= 3
    /\ sends (trace (snd (attempt_piezo_corrections w s)))
       = sends (trace s) ++ firstn k correction_commands
    /\ now (snd (attempt_piezo_corrections w s)) = now s
    /\ timer (snd (attempt_piezo_corrections w s)) = timer s
    /\ messages (snd (attempt_piezo_corrections w s)) = messages s
    /\ match fst (attempt_piezo_corrections w s) with
       | Ok _ => k = 3
       | Raise e =>
           exists c, nth_error correction_commands (k - 1) = Some c
                     /\ send_at w (now s) c = Raise e
       end.
Proof.
  unfold attempt_piezo_corrections, bind, send, emit, sends.
  cbn [now timer messages trace fst snd].
  destruct (send_at w (now s) (query _)) as [[]|e1] eqn:E1;
    cbn [now timer messages trace fst snd].
  - destruct (send_at w (now s) (query ("SLOWPIEZO:NOW " ++ _))) as [[]|e2] eqn:E2;
      cbn [now timer messages trace fst snd].
    + destruct (send_at w (now s) (set_refcell_pos _)) as [[]|e3] eqn:E3;
        cbn [now timer messages trace fst snd]; exists 3;
        rewrite !flat_map_app, <- !app_assoc; repeat split; try lia.
      eexists. split; [reflexivity | exact E3].
    + exists 2. rewrite !flat_map_app, <- !app_assoc. repeat split; try lia.
      eexists. split; [reflexivity | exact E2].
  - exists 1. rewrite !flat_map_app. repeat split; try lia.
    eexists. split; [reflexivity | exact E1].
Qed.

Lemma cancelled_cases (t : timer_state) :
  cancelled t = Cancelled \/ cancelled t = Fired.
Proof. destruct t; cbn; auto. Qed.

(** What a pass does to the queue and the timer, by the way it ends. *)
Lemma cycle_effects (s : state) r s' :
  cycle w s = (r, s') ->
  messages s' = messages (deliver w s)
  /\ match r with
     | Ok Continue =>
         messages s' = [] /\ now s' = now s + 1
         /\ looks (trace s') = looks (trace s) + 1
         /\ sleeps (trace s') = sleeps (trace s) + 1
         /\ (timer s' = timer s \/ timer s' = Cancelled)
     | Ok (Break TimedOut) =>
         messages s' <> [] /\ now s' = now s
         /\ looks (trace s') = looks (trace s) + 1
         /\ sleeps (trace s') = sleeps (trace s)
         /\ (timer s' = Cancelled \/ timer s' = Fired)
     | Ok (Break _) =>
         messages s' = [] /\ now s' = now s
         /\ looks (trace s') = looks (trace s) + 1
         /\ sleeps (trace s') = sleeps (trace s)
         /\ (timer s' = Cancelled \/ timer s' = Fired)
     | Raise _ =>
         messages s' = [] /\ now s' = now s
         /\ looks (trace s') = looks (trace s) + 1
         /\ sleeps (trace s') = sleeps (trace s)
         /\ (timer s' = timer s \/ timer s' = Cancelled)
     end.
Proof.
  unfold looks, sleeps. step_through.
  destruct (messages (deliver w s)) as [|m q] eqn:E.
  - destruct (deliver_empty w s E) as (_ & _ & Ht). rewrite Ht.
    oracle_cases; tidy; intros [= <- <-]; tidy;
      rewrite ?filter_app; cbn; rewrite ?length_app; cbn;
      repeat split; try lia; try discriminate; auto;
      destruct (timer s); cbn; auto.
  - tidy. intros [= <- <-]; tidy.
    rewrite ?filter_app; cbn; rewrite ?length_app; cbn.
    repeat split; try lia; try discriminate; apply cancelled_cases.
Qed.

(** A pass that does not find the laser locked leaves the timer alone
    unless it breaks out of the loop. *)
Lemma cycle_unlocked_timer (s : state) r s' :
  cycle w s = (r, s') ->
  locked_at w (now s) <> Ok true ->
  (forall t, r <> Ok (Break t)) ->
  timer s' = timer s.
Proof.
  step_through.
  destruct (messages (deliver w s)) as [|m q] eqn:E.
  - destruct (deliver_empty w s E) as (_ & _ & Ht). rewrite Ht.
    oracle_cases; tidy; intros [= <- <-] Hl Hb; tidy;
      try reflexivity; try congruence; now destruct (Hb LimitBeforeLock).
  - tidy. intros [= <- <-] _ Hb. now destruct (Hb TimedOut).
Qed.

Lemma deliver_grows (s : state) :
  exists more, messages (deliver w s) = messages s ++ more.
Proof. unfold deliver. cbn [messages]. eauto. Qed.

(** The same over a whole loop that has ended. *)
Lemma loop_effects (fuel : nat) :
  forall s r s',
    loop w fuel s = Some (r, s') ->
    (exists more, messages s' = messages s ++ more)
    /\ now s' + sleeps (trace s) = now s + sleeps (trace s')
    /\ looks (trace s') + sleeps (trace s)
       = looks (trace s) + sleeps (trace s') + 1
    /\ match r with
       | Ok TimedOut =>
           messages s' <> [] /\ (timer s' = Cancelled \/ timer s' = Fired)
       | Ok _ =>
           messages s' = [] /\ (timer s' = Cancelled \/ timer s' = Fired)
       | Raise _ => messages s' = []
       end.
Proof.
  induction fuel as [|fuel IH]; intros s r s' H; [discriminate|].
  rewrite loop_step in H.
  destruct (cycle w s) as [r1 s1] eqn:C.
  destruct (cycle_effects s r1 s1 C) as [Hm Hr].
  destruct (deliver_grows s) as [more Hd].
  destruct r1 as [[|t]|e].
  - destruct Hr as (Hm1 & Hn & Hl & Hs & _).
    destruct (IH _ _ _ H) as ((more' & Hm') & Hn' & Hl' & Hr').
    split; [|split; [lia|split; [lia|exact Hr']]].
    rewrite Hm1 in Hm'. rewrite Hm1 in Hm. rewrite <- Hm in Hd.
    symmetry in Hd. apply app_eq_nil in Hd as [-> _]. eauto.
  - injection H as <- <-.
    split; [exists more; congruence|].
    destruct t; destruct Hr as (Hm1 & Hn & Hl & Hs & Ht);
      (split; [lia|]); (split; [lia|]); auto.
  - injection H as <- <-.
    destruct Hr as (Hm1 & Hn & Hl & Hs & _).
    split; [exists more; congruence|]. split; [lia|]. split; [lia|exact Hm1].
Qed.

(** X10.  However the loop breaks, it has cancelled the timer first: after
    a break the timer is cancelled, or has fired, but is never left
    armed. *)
Theorem break_never_leaves_timer_armed (fuel : nat) s t s' :
  loop w fuel s = Some (Ok t, s') ->
  timer s' = Cancelled \/ timer s' = Fired.
Proof.
  intros H. destruct (loop_effects fuel s _ s' H) as (_ & _ & _ & Hr).
  destruct t; tauto.
Qed.

(** X11.  The loop never takes a message out of the queue: at every look
    the queue is the one of the look before followed by what has arrived,
    so what the last look found begins with what the loop was given.
    After the break on a message the queue still holds one. *)
Theorem queue_is_never_drained (fuel : nat) s r s' :
  loop w fuel s = Some (r, s') ->
  (exists more, messages s' = messages s ++ more)
  /\ (r = Ok TimedOut -> messages s' <> []).
Proof.
  intros H. destruct (loop_effects fuel s r s' H) as (Hm & _ & _ & Hr).
  split; [exact Hm|]. intros ->. tauto.
Qed.

(** X13.  The loop sleeps exactly once between two looks at the queue and
    not after the last: a loop that has ended has looked once more than
    it has slept, and its clock has advanced by the number of sleeps. *)
Theorem one_sleep_between_looks (fuel : nat) s r s' :
  loop w fuel s = Some (r, s') ->
  looks (trace s') - looks (trace s)
  = sleeps (trace s') - sleeps (trace s) + 1
  /\ now s' = now s + (sleeps (trace s') - sleeps (trace s))
  /\ sleeps (trace s) <= sleeps (trace s').
Proof.
  intros H. destruct (loop_effects fuel s r s' H) as (_ & Hn & Hl & _).
  destruct (loop_frame w fuel s r s' H) as (ext & Htr & _).
  assert (sleeps (trace s) <= sleeps (trace s')).
  { unfold sleeps. rewrite Htr, filter_app, length_app. lia. }
  lia.
Qed.

(** X12.  A timer that is no longer armed cannot stop the loop: from a
    pass on with the queue empty, the timer cancelled (or fired) and no
    other thread writing to the queue, the loop never ends by the break
    on a message. *)
Theorem cancelled_timer_never_times_out (fuel : nat) :
  (forall t, puts_at w t = []) ->
  forall s r s',
    messages s = [] -> timer s <> Armed ->
    loop w fuel s = Some (r, s') ->
    r <> Ok TimedOut.
Proof.
  intros Hp. induction fuel as [|fuel IH]; intros s r s' Hm Ht H; [discriminate|].
  rewrite loop_step in H.
  destruct (cycle w s) as [r1 s1] eqn:C.
  destruct (cycle_effects s r1 s1 C) as [Hd Hr].
  rewrite (deliver_unarmed w s Hm Ht (Hp _)) in Hd.
  destruct r1 as [[|t]|e].
  - destruct Hr as (Hm1 & _ & _ & _ & Ht1).
    apply (IH s1 r s'); trivial. destruct Ht1 as [E|E]; rewrite E; congruence.
  - injection H as <- <-. destruct t; try discriminate.
    destruct Hr as [Hne _]. congruence.
  - injection H as <- <-. discriminate.
Qed.


(** X14.  A run that finds a message at its first look -- left in the
    queue before the thread started, or from a timer already due -- ends
    at once by the break on a message: between [timer.start()] and
    [__exit__] it looks at the queue, cancels the timer, and makes no call
    on the instrument. *)
Theorem message_at_first_look_ends_run (fuel : nat) :
  enter w = Ok tt ->
  inbox w 0 <> [] ->
  exists s,
    run w (S fuel) = Some (leave w (Ok TimedOut) s)
    /\ trace s = [EvEnter (Ok tt); EvTimerStart;
                  EvQsize (List.length (inbox w 0)); EvTimerCancel]
    /\ now s = 0
    /\ messages s = inbox w 0.
Proof.
  intros Hen Hin.
  assert (Hd : messages (deliver w started) = inbox w 0)
    by (now rewrite deliver_inbox).
  assert (Hne : messages (deliver w started) <> []) by congruence.
  pose proof (cycle_stop w started Hne) as C.
  eexists. split; [|split; [|split]].
  - rewrite run_entered by exact Hen. rewrite loop_step, C. reflexivity.
  - cbn [trace]. now rewrite Hd.
  - reflexivity.
  - cbn [messages]. exact Hd.
Qed.

End Thread.

Lemma break_never_leaves_timer_armed_witness :
  exists t s',
    loop scenario_D 3 started = Some (Ok t, s')
    /\ (timer s' = Cancelled \/ timer s' = Fired).
Proof.
  destruct (loop scenario_D 3 started) as [[[t|e] s']|] eqn:L.
  - exists t, s'. split; [reflexivity|].
    exact (break_never_leaves_timer_armed scenario_D 3 started t s' L).
  - vm_compute in L. discriminate.
  - vm_compute in L. discriminate.
Defined.

Lemma queue_is_never_drained_witness :
  exists r s',
    loop scenario_A 6 started = Some (r, s')
    /\ (exists more, messages s' = messages started ++ more)
    /\ (r = Ok TimedOut -> messages s' <> []).
Proof.
  destruct (loop scenario_A 6 started) as [[r s']|] eqn:L.
  - exists r, s'. split; [reflexivity|].
    exact (queue_is_never_drained scenario_A 6 started r s' L).
  - vm_compute in L. discriminate.
Defined.

Lemma one_sleep_between_looks_witness :
  exists r s',
    loop scenario_A 6 started = Some (r, s')
    /\ looks (trace s') - looks (trace started)
       = sleeps (trace s') - sleeps (trace started) + 1.
Proof.
  destruct (loop scenario_A 6 started) as [[r s']|] eqn:L.
  - exists r, s'. split; [reflexivity|].
    exact (proj1 (one_sleep_between_looks scenario_A 6 started r s' L)).
  - vm_compute in L. discriminate.
Defined.

Lemma cancelled_timer_never_times_out_witness :
  let s := {| now := 0; timer := Cancelled; messages := []; trace := [] |} in
  exists r s', loop scenario_D 3 s = Some (r, s') /\ r <> Ok TimedOut.
Proof.
  intros s. destruct (loop scenario_D 3 s) as [[r s']|] eqn:L.
  - exists r, s'. split; [reflexivity|].
    apply (cancelled_timer_never_times_out scenario_D 3 (fun _ => eq_refl)
             s r s' eq_refl); [discriminate | exact L].
  - vm_compute in L. discriminate.
Defined.


Lemma message_at_first_look_ends_run_witness :
  exists s,
    run stale_message 1 = Some (leave stale_message (Ok TimedOut) s)
    /\ trace s = [EvEnter (Ok tt); EvTimerStart; EvQsize 1; EvTimerCancel].
Proof.
  destruct (message_at_first_look_ends_run stale_message 0 eq_refl)
    as (s & Hrun & Htr & _); [discriminate|].
  exists s. split; [exact Hrun | exact Htr].
Defined.

End LockMoreFacts.

(** ** Check marks, and what the wavelength dialog hands over *)

Module MenuFacts.
Import ControlApplication Menu.

Lemma loop_eqb_eq (a b : control_loop) : loop_eqb a b = true <-> a = b.
Proof. destruct a, b; cbn; split; congruence. Qed.

Lemma loop_eqb_refl (a : control_loop) : loop_eqb a a = true.
Proof. now destruct a. Qed.

Section Slots.

Variable d : desk.

(** The setter the slot of each action calls. *)
Lemma toggle_trace (a : control_loop) (checked : bool) :
  let target := match a with fast_piezo => piezo_etalon | _ => a end in
  toggle d a checked []
  = (setter d target checked,
     [Print (verb checked ++ match a with
                             | slow_piezo => " slow piezo."
                             | thin_etalon => " thin etalon."
                             | piezo_etalon => " piezo etalon."
                             | fast_piezo => " fast piezo."
                             end);
      SetChecked a (negb checked);
      Call (set_control target checked) (setter d target checked)]
     ++ match setter d target checked with
        | Ok _ => [SetChecked a checked]
        | Raise _ => []
        end).
Proof.
  destruct a; cbn [toggle]; cbv zeta;
    unfold toggle_slow_piezo_control, toggle_thin_etalon_control,
      toggle_piezo_etalon_control, toggle_fast_piezo_control,
      bind, ret, emit, call_set_control; cbn [app];
    match goal with |- context [setter d ?l checked] =>
      destruct (setter d l checked) as [[]|e] end; reflexivity.
Qed.

(** X16.  Each of the four control-loop slots leaves the check mark of
    its action at [checked] when the instrument call returned, and back at
    [not checked] when it raised; the exception goes on to the caller, and
    the check marks of the other actions are as they were. *)
Theorem check_mark_follows_the_instrument (a : control_loop) (checked : bool)
        (before : control_loop -> bool) :
  let target := match a with fast_piezo => piezo_etalon | _ => a end in
  let r := toggle d a checked [] in
  fst r = setter d target checked
  /\ check_mark (snd r) a (before a)
     = match setter d target checked with
       | Ok _ => checked
       | Raise _ => negb checked
       end
  /\ (forall b, b <> a -> check_mark (snd r) b (before b) = before b)
  /\ calls (snd r) = [set_control target checked].
Proof.
  cbv zeta. rewrite toggle_trace. cbn [fst snd].
  split; [reflexivity|]. split; [|split].
  - destruct (setter d _ checked); cbn; now rewrite loop_eqb_refl.
  - intros b Hb.
    assert (E : loop_eqb b a = false).
    { destruct (loop_eqb b a) eqn:E; [|reflexivity].
      apply loop_eqb_eq in E. congruence. }
    destruct (setter d _ checked); cbn; now rewrite E.
  - now destruct (setter d _ checked).
Qed.

(** The dialog, case by case. *)
Lemma dialog_cases :
  set_wavelength_dialog d []
  = match current_wavelength d with
    | Raise e => (Raise e, preamble d)
    | Ok current =>
        let (target, success) := get_double d current in
        (Ok tt,
         preamble d ++ GetDouble current (target, success) ::
           (if success then
              if PrimFloat.leb 10 (PrimFloat.abs (PrimFloat.sub current target))
              then Warning target (warning_answer d target) ::
                     (if is_No (warning_answer d target) then []
                      else [PrintSetting target; StartThread (set_wavelength target)])
              else [PrintSetting target; StartThread (set_wavelength target)]
            else []))
    end.
Proof.
  unfold current_wavelength, preamble.
  unfold set_wavelength_dialog, bind, ret, emit, getDouble, warning,
    wavemeter_wavelength.
  destruct (target_wavelength d) as [x0|]; cbn [app].
  - destruct (get_double d x0) as [target [|]]; [|reflexivity].
    destruct (PrimFloat.leb _ _); [|reflexivity].
    now destruct (warning_answer d target).
  - destruct (wavemeter d) as [x0|e]; cbn [app]; [|reflexivity].
    destruct (get_double d x0) as [target [|]]; [|reflexivity].
    destruct (PrimFloat.leb _ _); [|reflexivity].
    now destruct (warning_answer d target).
Qed.

(** X17.  The wavelength dialog hands at most one wavelength to a
    [set_wavelength] thread, and only the one the user entered and
    accepted.  When the current wavelength cannot be read, no dialog is
    shown; when the user cancels the input, nothing is asked and nothing
    handed over; and after the question, only the answer Yes hands it
    over. *)
Theorem dialog_hands_over_only_accepted :
  let r := set_wavelength_dialog d [] in
  List.length (dispatched (snd r)) <= 1
  /\ (forall e, current_wavelength d = Raise e ->
                r = (Raise e, [ReadWavemeter (Raise e)]))
  /\ (forall current target,
         current_wavelength d = Ok current ->
         get_double d current = (target, false) ->
         r = (Ok tt, preamble d ++ [GetDouble current (target, false)]))
  /\ (forall x, In x (dispatched (snd r)) ->
                exists current,
                  current_wavelength d = Ok current
                  /\ get_double d current = (x, true)
                  /\ (confirmations (snd r) = []
                      \/ confirmations (snd r) = [Yes])).
Proof.
  cbv zeta. rewrite dialog_cases.
  destruct (ControlApplicationFacts.preamble_silent d) as [Pc Pd].
  destruct (current_wavelength d) as [current|e] eqn:C.
  - destruct (get_double d current) as [target success] eqn:G.
    cbn [fst snd]. unfold dispatched, confirmations in *.
    rewrite !flat_map_app, Pc, Pd. cbn [app].
    split; [|split; [discriminate|split]].
    + destruct success; [|cbn; lia].
      destruct (PrimFloat.leb _ _); [|cbn; lia].
      destruct (is_No _); cbn; lia.
    + intros c t [= <-]. rewrite G. now intros [= -> ->].
    + intros x Hx. exists current. split; [reflexivity|].
      destruct success; [|destruct Hx].
      destruct (PrimFloat.leb _ _).
      * destruct (warning_answer d target); cbn in Hx |- *;
          [destruct Hx as [<-|[]]; auto | destruct Hx].
      * cbn in Hx |- *. destruct Hx as [<-|[]]; auto.
  - cbn [fst snd]. rewrite Pd.
    split; [cbn; lia|]. split; [|split; [discriminate|intros x []]].
    intros e' [= <-]. f_equal. unfold preamble, current_wavelength in *.
    destruct (target_wavelength d); [discriminate|]. now rewrite C.
Qed.

End Slots.

End MenuFacts.

(** ** The lock menu *)

Module StabilizationFacts.
Import Stabilization.

Section Slots.

Variable matisse : method -> res unit.

(** X18.  [toggle_lock_laser] calls [start_laser_lock_correction] when
    checked and [stop_laser_lock_correction] when not, and nothing else on
    the instrument.  When the call returns, the lock action is checked as
    asked and every control-loop action is checked and disabled with the
    lock on, unchecked and enabled with the lock off.  When the call
    raises, the lock action is set back to [not checked] and no other
    check mark or enabling has changed. *)
Theorem lock_menu_follows_the_lock (checked : bool) (m0 : menu) :
  let wanted := if checked then start_laser_lock_correction
                else stop_laser_lock_correction in
  let r := toggle_lock_laser matisse checked [] in
  let m := replay m0 (snd r) in
  calls (snd r) = [wanted]
  /\ fst r = matisse wanted
  /\ match matisse wanted with
     | Ok _ =>
         is_checked m lock_laser_action = checked
         /\ (forall l, is_checked m (loop_action l) = checked
                       /\ is_enabled m (loop_action l) = negb checked)
         /\ is_checked m auto_stabilize_action = is_checked m0 auto_stabilize_action
         /\ is_enabled m lock_laser_action = is_enabled m0 lock_laser_action
         /\ is_enabled m auto_stabilize_action = is_enabled m0 auto_stabilize_action
     | Raise _ =>
         is_checked m lock_laser_action = negb checked
         /\ (forall a, a <> lock_laser_action -> is_checked m a = is_checked m0 a)
         /\ (forall a, is_enabled m a = is_enabled m0 a)
     end.
Proof.
  cbv zeta. unfold toggle_lock_laser, bind, emit, call, for_each.
  destruct checked; cbn [app negb];
    match goal with |- context [matisse ?x] =>
      destruct (matisse x) as [[]|e] end;
    cbn; (split; [reflexivity|]); (split; [reflexivity|]);
    repeat split; try reflexivity;
    try (match goal with l : ControlApplication.control_loop |- _ =>
           now destruct l end);
    try (intros [| |l]; try intros H; try reflexivity; congruence).
Qed.

(** X19.  [toggle_auto_stabilization] calls [stabilize_on] when checked
    and [stabilize_off] when not; the check mark of its action ends as
    asked when the call returns and at [not checked] when it raises, and
    the rest of the menu is as it was. *)
Theorem auto_stabilize_menu (checked : bool) (m0 : menu) :
  let wanted := if checked then stabilize_on else stabilize_off in
  let r := toggle_auto_stabilization matisse checked [] in
  let m := replay m0 (snd r) in
  calls (snd r) = [wanted]
  /\ fst r = matisse wanted
  /\ is_checked m auto_stabilize_action
     = match matisse wanted with Ok _ => checked | Raise _ => negb checked end
  /\ (forall a, a <> auto_stabilize_action -> is_checked m a = is_checked m0 a)
  /\ (forall a, is_enabled m a = is_enabled m0 a).
Proof.
  cbv zeta. unfold toggle_auto_stabilization, bind, emit, call.
  destruct checked; cbn [app negb];
    match goal with |- context [matisse ?x] =>
      destruct (matisse x) as [[]|e] end;
    cbn; repeat split; try reflexivity;
    try (intros [| |l]; try intros H; try reflexivity; congruence).
Qed.

End Slots.

End StabilizationFacts.

(** ** The position dialogs and the error dialog *)

Module PositionDialogsFacts.
Import Matisse PositionDialogs.

Section Dialogs.

Variable F : Type.
Variable py_float : string -> option F.
Variable fmt : F -> string.
Variable dev : instrument.
Variable get_double : string -> F -> F * bool.

Abbreviation query := (Matisse.query F py_float dev).

(** A numeric query that returns made one exchange and returns a
    float. *)
Lemma query_numeric_ok (depth : nat) tr command v tr1 :
  query depth tr command true true = (Ok v, tr1) ->
  sent tr1 = sent tr ++ [command] /\ exists x, v = VFloat x.
Proof.
  destruct depth as [|depth]; [discriminate|].
  rewrite MatisseFacts.query_frame. cbv zeta.
  destruct (dev (sent tr) command) as [raw|]; [|discriminate].
  destruct (PyStr.startswith _ _).
  - now destruct (Matisse.query F py_float dev depth _ _ _ _) as [[[code|x]|e] tr2].
  - unfold parse_numeric.
    destruct (nth_error _ 1) as [tok|]; [|discriminate].
    destruct (py_float tok) as [x|]; [|discriminate].
    intros [= <- <-]. split; [|eauto].
    rewrite !MatisseMoreFacts.sent_app. cbn. now rewrite app_nil_r.
Qed.

(** X20.  What a position dialog ([set_piezo_eta_pos_dialog],
    [set_slow_piezo_pos_dialog], [set_refcell_pos_dialog]) lets reach the
    instrument.  It always begins with the read.  When the read fails, no
    dialog is shown and nothing is written; when the user cancels, the
    read is all the instrument has seen; and when the user accepts, the
    write follows with the number entered, after it at most the error-code
    queries of a rejected write.  The value offered is the float the read
    returned. *)
Theorem position_dialog_protocol (title read write : string) (depth : nat) tr :
  let '(r, tr', dialogs) :=
    position_dialog F py_float fmt dev get_double title read write (S depth) tr in
  match dialogs with
  | [] =>
      (exists e, r = Raise e)
      /\ exists k, sent tr' = sent tr ++ read :: repeat ERROR_CODE_QUERY k
  | [(t, x, (target, false))] =>
      t = title /\ r = Ok tt
      /\ fst (query (S depth) tr read true true) = Ok (VFloat x)
      /\ get_double title x = (target, false)
      /\ sent tr' = sent tr ++ [read]
  | [(t, x, (target, true))] =>
      t = title
      /\ fst (query (S depth) tr read true true) = Ok (VFloat x)
      /\ get_double title x = (target, true)
      /\ exists k,
          sent tr' = sent tr ++ read :: (write ++ fmt target)%string
                              :: repeat ERROR_CODE_QUERY k
          /\ (r = Ok tt -> k = 0)
  | _ => False
  end.
Proof.
  unfold position_dialog.
  destruct (Matisse.query F py_float dev (S depth) tr read true true)
    as [[[s|x]|e] tr1] eqn:Q.
  - destruct (query_numeric_ok _ _ _ _ _ Q) as [_ [x Hx]]. discriminate.
  - destruct (query_numeric_ok _ _ _ _ _ Q) as [Hs _].
    cbv zeta. destruct (get_double title x) as [target [|]] eqn:G; cbn [fst snd].
    + destruct (MatisseMoreFacts.query_sent F py_float dev depth tr1
                  (write ++ fmt target)%string false true) as (k & Hk & _ & _).
      destruct (Matisse.query F py_float dev (S depth) tr1 _ false true)
        as [[v|e] tr2] eqn:Q2; cbn [snd] in Hk;
        (split; [reflexivity|]); (split; [reflexivity|]);
        (split; [exact G|]); exists k;
        rewrite Hk, Hs, <- app_assoc; (split; [reflexivity|]).
      * intros _.
        destruct (MatisseMoreFacts.query_ok_single F py_float dev _ _ _ _ _ Q2)
          as [E _].
        rewrite E, MatisseMoreFacts.sent_app in Hk.
        apply app_inv_head in Hk. cbn in Hk.
        injection Hk as Hk. destruct k; [reflexivity | discriminate].
      * discriminate.
    + repeat split; trivial.
  - split; [eauto|].
    destruct (MatisseMoreFacts.query_sent F py_float dev depth tr read true true)
      as (k & Hk & _). rewrite Q in Hk. eauto.
Qed.

End Dialogs.

(** The reference-cell dialog, accepted with 0.5 entered. *)
Example set_refcell_pos_dialog_accepted :
  set_refcell_pos_dialog string MatisseInit.literal (fun s => s)
    MatisseInit.dev_positions (fun _ _ => ("0.5", true)) 1 []
  = (Ok tt,
     [Exchange "SCAN:NOW?"; ParseNumeric "POS 0.25"; Exchange "SCAN:NOW 0.5"],
     [("Set RefCell Position", "0.25", ("0.5", true))]).
Proof. vm_compute. reflexivity. Qed.

End PositionDialogsFacts.

Module ErrorDialogFacts.
Import ErrorDialog.

Lemma underscores_length (n : nat) : String.length (underscores n) = n.
Proof. induction n as [|n IH]; [reflexivity|]. simpl. now rewrite IH. Qed.

Lemma list_max_attained (l : list nat) : l <> [] -> In (list_max l) l.
Proof.
  induction l as [|n l IH]; [congruence|]. intros _.
  change (list_max (n :: l)) with (Nat.max n (list_max l)).
  destruct l as [|m l].
  - left. cbn. lia.
  - destruct (Nat.max_spec n (list_max (m :: l))) as [[_ E]|[_ E]]; rewrite E.
    + right. apply IH. discriminate.
    + now left.
Qed.

Lemma underscores_chars (n : nat) (c : ascii) :
  In c (list_ascii_of_string (underscores n)) -> c = "_"%char.
Proof.
  induction n as [|n IH]; [intros []|]. intros [<-|H]; [reflexivity|auto].
Qed.

(** [s.startswith(p)] holds exactly of the strings that are [p] followed
    by something, and [needle in hay] of those that have [needle]
    somewhere inside. *)
Lemma startswith_spec (p : string) :
  forall s, PyStr.startswith p s = true <-> exists post, s = (p ++ post)%string.
Proof.
  induction p as [|a p IH]; intros s.
  - split; [intros _; now exists s | reflexivity].
  - destruct s as [|b s]; cbn [PyStr.startswith].
    + split; [discriminate | intros [post H]; discriminate].
    + rewrite andb_true_iff, Ascii.eqb_eq, IH. split.
      * intros [-> [post ->]]. now exists post.
      * intros [post [= -> ->]]. eauto.
Qed.

Lemma contains_spec (needle : string) :
  forall hay,
    contains needle hay = true
    <-> exists pre post, hay = (pre ++ needle ++ post)%string.
Proof.
  intros hay. split.
  - induction hay as [|c hay IH]; cbn [contains]; rewrite orb_true_iff.
    + intros [H|H]; [|discriminate].
      apply startswith_spec in H as [post ->]. now exists EmptyString, post.
    + intros [H|H].
      * apply startswith_spec in H as [post ->]. now exists EmptyString, post.
      * destruct (IH H) as (pre & post & ->). now exists (String c pre), post.
  - intros (pre & post & ->). induction pre as [|c pre IH].
    + assert (H : PyStr.startswith needle (needle ++ post) = true)
        by (apply startswith_spec; eauto).
      cbn [append]. destruct (needle ++ post)%string; cbn [contains]; now rewrite H.
    + cbn [append contains]. rewrite IH. apply orb_true_r.
Qed.

(** X21.  [error_dialog] on a traceback: it raises [ValueError] when
    there is no line at all.  Otherwise it prints the last line, the
    description, and the text of the box is the description, a row of
    underscores, two line feeds and the lines kept, joined.  The row
    consists of underscores only and is exactly as long as the longest
    line of the traceback, or 185 long when a line is longer than that.
    The lines kept are exactly the lines before the description that do
    not have [gui/utils.py] inside, in their order. *)
Theorem error_dialog_text (utils_path : string) (stack : list string) :
  error_dialog utils_path [] = Raise ValueError
  /\ (stack <> [] ->
      exists width row kept,
        error_dialog utils_path stack
        = Ok (last stack EmptyString,
              ((last stack EmptyString ++ row)
                 ++ String "010" (String "010" EmptyString)
                 ++ String.concat "" kept)%string)
        /\ String.length row = width
        /\ (forall c, In c (list_ascii_of_string row) -> c = "_"%char)
        /\ width <= 185
        /\ (forall line, In line stack ->
                         Nat.min (String.length line) 185 <= width)
        /\ (width < 185 ->
            exists line, In line stack /\ String.length line = width)
        /\ (width = 185 ->
            exists line, In line stack /\ 185 <= String.length line)
        /\ kept = filter (fun line => negb (contains utils_path line))
                         (removelast stack)
        /\ (forall line,
              In line kept
              <-> In line (removelast stack)
                  /\ ~ exists pre post, line = (pre ++ utils_path ++ post)%string)).
Proof.
  split; [reflexivity|]. intros Hne.
  exists (Nat.min (list_max (map String.length stack)) MAX_WIDTH),
    (underscores (Nat.min (list_max (map String.length stack)) MAX_WIDTH)),
    (filter (fun item => negb (contains utils_path item)) (removelast stack)).
  split; [now destruct stack|].
  split; [apply underscores_length|].
  split; [apply underscores_chars|].
  assert (Hm : map String.length stack <> [])
    by (destruct stack; [congruence | discriminate]).
  apply list_max_attained, in_map_iff in Hm as (longest & Hl & Hin).
  unfold MAX_WIDTH. split; [lia|]. split; [|split; [|split; [|split]]].
  - intros line Hline.
    assert (String.length line <= list_max (map String.length stack)).
    { pose proof (proj1 (list_max_le (map String.length stack) _) (Nat.le_refl _)) as H.
      rewrite Forall_forall in H. apply H. now apply in_map. }
    lia.
  - intros Hlt. exists longest. split; [exact Hin|]. lia.
  - intros Heq. exists longest. split; [exact Hin|]. lia.
  - reflexivity.
  - intros line. rewrite filter_In, negb_true_iff, <- contains_spec.
    now destruct (contains utils_path line).
Qed.

(** X21, on a traceback of three lines, the middle one from the
    decorator in [gui/utils.py]: the row is as long as the longest line
    and the decorator's line is left out. *)
Lemma error_dialog_text_example :
  error_dialog "gui/utils.py"
    [ "Traceback:"; "  File gui/utils.py, line 9"; "  File gui/app.py"; "ValueError: no" ]
  = Ok ("ValueError: no",
        ("ValueError: no" ++ "___________________________"
           ++ String "010" (String "010" EmptyString)
           ++ "Traceback:" ++ "  File gui/app.py")%string).
Proof. vm_compute. reflexivity. Qed.

Lemma error_dialog_text_witness :
  exists width row kept,
    error_dialog "gui/utils.py" ["  File gui/utils.py"; "  File gui/app.py"; "Error"]
    = Ok ("Error",
          (("Error" ++ row) ++ String "010" (String "010" EmptyString)
             ++ String.concat "" kept)%string)
    /\ String.length row = width
    /\ width <= 185
    /\ kept = ["  File gui/app.py"].
Proof.
  destruct (proj2 (error_dialog_text "gui/utils.py"
                     ["  File gui/utils.py"; "  File gui/app.py"; "Error"])
              ltac:(discriminate))
    as (width & row & kept & E & L & _ & W & _ & _ & _ & K & _).
  exists width, row, kept. split; [exact E|]. split; [exact L|].
  split; [exact W|]. rewrite K. reflexivity.
Defined.

End ErrorDialogFacts.
